(** * tiup: the [run] command and the playground control commands

  A shallow embedding of

  - [cmd/run.go]: [base62Name], [downloadIfMissing], [launchComponent]
    and the [RunE] closure of [newRunCmd];
  - [components/playground/command.go]: [buildCommands], [scaleIn],
    [scaleOut], [display], [partition], [restart],
    [sendCommandsAndPrintResult] and [requestCommand];

  together with the parts of the Go libraries these functions call
  ([golang.org/x/mod/semver], [sort.Slice], [strconv], [math.Mod]).

  Go [int]/[int64] values are [Z]; Go strings are [string] (sequences of
  bytes, compared bytewise); a Go [error] is a value of [error], [nil]
  being [None]. *)

From Stdlib Require Import ZArith List Bool Lia Ascii String.
From Stdlib Require Import Permutation Sorted OrderedTypeEx DecimalString.
From Stdlib Require DecimalPos.
Import ListNotations.

Open Scope string_scope.
Open Scope Z_scope.

(** ** Go strings *)

Module GoString.

(** [len(s)] *)
Definition len (s : string) : Z := Z.of_nat (String.length s).

(** [s[1:]] for a non-empty [s]. *)
Definition tail (s : string) : string :=
  match s with
  | EmptyString => EmptyString
  | String _ r => r
  end.

(** [x < y] on strings: bytewise lexicographic order. *)
Definition strLess (x y : string) : bool := String.ltb x y.

Definition isEmpty (s : string) : bool :=
  match s with
  | EmptyString => true
  | String _ _ => false
  end.

(** [len(s) > 0 && s[0] == c] *)
Definition startsWith (c : ascii) (s : string) : bool :=
  match s with
  | EmptyString => false
  | String a _ => Ascii.eqb a c
  end.

(** ['0' <= c && c <= '9'] *)
Definition isDigit (c : ascii) : bool :=
  ((48 <=? nat_of_ascii c) && (nat_of_ascii c <=? 57))%nat.

(** [strconv.Itoa] *)
Definition Itoa (n : Z) : string := NilZero.string_of_int (Z.to_int n).

End GoString.

(** ** golang.org/x/mod/semver

  The comparison used by [downloadIfMissing].  The package is a
  dependency of the repository; the functions below follow its
  [parse], [parseInt], [parsePrerelease], [parseBuild], [compareInt],
  [comparePrerelease] and [Compare]. *)

Module semver.
Import GoString.

Record parsed := mkParsed {
  major : string;
  minor : string;
  patch : string;
  short : string;
  prerelease : string;
  build : string
}.

(** [isIdentChar]: ASCII alphanumerics and hyphen. *)
Definition isIdentChar (c : ascii) : bool :=
  let n := nat_of_ascii c in
  ((65 <=? n) && (n <=? 90) || (97 <=? n) && (n <=? 122)
   || (48 <=? n) && (n <=? 57) || (n =? 45))%nat.

(** [isNum]: every byte is a digit. *)
Fixpoint isNum (v : string) : bool :=
  match v with
  | EmptyString => true
  | String c r => isDigit c && isNum r
  end.

(** [isBadNum]: all digits, more than one of them, and a leading zero. *)
Definition isBadNum (v : string) : bool :=
  isNum v && (1 <? len v) && startsWith "0" v.

(** The digit-scanning loop of [parseInt]: the longest digit prefix and
    what follows it. *)
Fixpoint spanDigits (v : string) : string * string :=
  match v with
  | EmptyString => (EmptyString, EmptyString)
  | String c r =>
      if isDigit c
      then let '(d, rest) := spanDigits r in (String c d, rest)
      else (EmptyString, v)
  end.

(** [parseInt]: a non-empty digit prefix without a leading zero (unless
    it is the single digit 0). *)
Definition parseInt (v : string) : option (string * string) :=
  match v with
  | EmptyString => None
  | String c r =>
      if negb (isDigit c) then None
      else
        let '(d, rest) := spanDigits r in
        if Ascii.eqb c "0" && negb (isEmpty d) then None
        else Some (String c d, rest)
  end.

(** The scanning loop of [parsePrerelease], started after the hyphen.
    [cur] is [v[start:i]], the identifier being read; the result is the
    text consumed and the remainder [v[i:]]. *)
Fixpoint scanPrerelease (cur v : string) : option (string * string) :=
  match v with
  | EmptyString =>
      if isEmpty cur || isBadNum cur then None
      else Some (EmptyString, EmptyString)
  | String c r =>
      if Ascii.eqb c "+" then
        if isEmpty cur || isBadNum cur then None
        else Some (EmptyString, v)
      else if negb (isIdentChar c) && negb (Ascii.eqb c ".") then None
      else if Ascii.eqb c "." then
        if isEmpty cur || isBadNum cur then None
        else
          match scanPrerelease EmptyString r with
          | Some (t, rest) => Some (String c t, rest)
          | None => None
          end
      else
        match scanPrerelease (cur ++ String c EmptyString) r with
        | Some (t, rest) => Some (String c t, rest)
        | None => None
        end
  end.

Definition parsePrerelease (v : string) : option (string * string) :=
  if negb (startsWith "-" v) then None
  else
    match scanPrerelease EmptyString (tail v) with
    | Some (t, rest) => Some (String "-" t, rest)
    | None => None
    end.

(** The scanning loop of [parseBuild], started after the plus sign;
    [atStart] is [start == i]. *)
Fixpoint scanBuild (atStart : bool) (v : string) : option (string * string) :=
  match v with
  | EmptyString => if atStart then None else Some (EmptyString, EmptyString)
  | String c r =>
      if negb (isIdentChar c) && negb (Ascii.eqb c ".") then None
      else if Ascii.eqb c "." then
        if atStart then None
        else
          match scanBuild true r with
          | Some (t, rest) => Some (String c t, rest)
          | None => None
          end
      else
        match scanBuild false r with
        | Some (t, rest) => Some (String c t, rest)
        | None => None
        end
  end.

Definition parseBuild (v : string) : option (string * string) :=
  if negb (startsWith "+" v) then None
  else
    match scanBuild true (tail v) with
    | Some (t, rest) => Some (String "+" t, rest)
    | None => None
    end.

(** The tail of [parse] once major, minor and patch are read: optional
    pre-release, optional build, then nothing. *)
Definition parseSuffix (ma mi pa v : string) : option parsed :=
  match (if startsWith "-" v then parsePrerelease v
         else Some (EmptyString, v)) with
  | None => None
  | Some (pr, v) =>
      match (if startsWith "+" v then parseBuild v
             else Some (EmptyString, v)) with
      | None => None
      | Some (bu, v) =>
          if negb (isEmpty v) then None
          else Some (mkParsed ma mi pa EmptyString pr bu)
      end
  end.

(** [parse]: [vMAJOR[.MINOR[.PATCH[-PRERELEASE][+BUILD]]]]. *)
Definition parse (v : string) : option parsed :=
  if negb (startsWith "v" v) then None
  else
    match parseInt (tail v) with
    | None => None
    | Some (ma, v) =>
        if isEmpty v then Some (mkParsed ma "0" "0" ".0.0" "" "")
        else if negb (startsWith "." v) then None
        else
          match parseInt (tail v) with
          | None => None
          | Some (mi, v) =>
              if isEmpty v then Some (mkParsed ma mi "0" ".0" "" "")
              else if negb (startsWith "." v) then None
              else
                match parseInt (tail v) with
                | None => None
                | Some (pa, v) => parseSuffix ma mi pa v
                end
          end
    end.

(** [IsValid] *)
Definition IsValid (v : string) : bool :=
  match parse v with Some _ => true | None => false end.

(** [compareInt]: decimal strings without leading zeros, compared by
    length and then bytewise. *)
Definition compareInt (x y : string) : Z :=
  if String.eqb x y then 0
  else if len x <? len y then -1
  else if len x >? len y then 1
  else if strLess x y then -1
  else 1.

(** [nextIdent]: the text up to the next dot, and the rest from that
    dot on. *)
Fixpoint nextIdent (x : string) : string * string :=
  match x with
  | EmptyString => (EmptyString, EmptyString)
  | String c r =>
      if Ascii.eqb c "." then (EmptyString, x)
      else let '(d, rest) := nextIdent r in (String c d, rest)
  end.

(** The body of the loop of [comparePrerelease] for two identifiers
    that differ: numeric before non-numeric, numeric by length first,
    then bytewise. *)
Definition compareIdent (dx dy : string) : Z :=
  let ix := isNum dx in
  let iy := isNum dy in
  if negb (Bool.eqb ix iy) then (if ix then -1 else 1)
  else if ix && (len dx <? len dy) then -1
  else if ix && (len dx >? len dy) then 1
  else if strLess dx dy then -1
  else 1.

(** The loop of [comparePrerelease] with what follows it.  Every turn
    drops at least one byte of [x], so [fuel] above the length of [x]
    is never used up; [None] is the loop not finished within [fuel]
    turns. *)
Fixpoint prereleaseLoop (fuel : nat) (x y : string) : option Z :=
  if negb (isEmpty x) && negb (isEmpty y) then
    match fuel with
    | O => None
    | S fuel' =>
        let '(dx, x') := nextIdent (tail x) in
        let '(dy, y') := nextIdent (tail y) in
        if negb (String.eqb dx dy) then Some (compareIdent dx dy)
        else prereleaseLoop fuel' x' y'
    end
  else if isEmpty x then Some (-1)
  else Some 1.

Definition comparePrerelease (x y : string) : Z :=
  if String.eqb x y then 0
  else if isEmpty x then 1
  else if isEmpty y then -1
  else
    match prereleaseLoop (String.length x) x y with
    | Some c => c
    | None => 0
    end.

(** [Compare]: an invalid version is below every valid one, and two
    invalid versions are equal. *)
Definition Compare (v w : string) : Z :=
  match parse v, parse w with
  | None, None => 0
  | None, Some _ => -1
  | Some _, None => 1
  | Some pv, Some pw =>
      let c := compareInt (major pv) (major pw) in
      if negb (c =? 0) then c
      else
        let c := compareInt (minor pv) (minor pw) in
        if negb (c =? 0) then c
        else
          let c := compareInt (patch pv) (patch pw) in
          if negb (c =? 0) then c
          else comparePrerelease (prerelease pv) (prerelease pw)
  end.

End semver.


(** ** Go library functions used by the two commands *)

Module GoLib.
Import GoString.

(** A Go [error] value: what a collaborator returned, or one of the
    wrappers the code applies ([fmt.Errorf], [errors.Trace],
    [errors.AddStack], [errors.Annotatef]). *)
Inductive error : Type :=
| External (what : string)
| Errorf (msg : string)
| Trace (e : error)
| AddStack (e : error)
| Annotate (e : error) (msg : string).

(** [errors.Annotatef(err, ...)] is [nil] for a [nil] error. *)
Definition Annotatef (err : option error) (msg : string) : option error :=
  match err with
  | None => None
  | Some e => Some (Annotate e msg)
  end.

(** The inner loop of [insertionSort_func]: the new element [x] moves
    left while it is less than its left neighbour.  [left] is the sorted
    part already built, nearest neighbour first. *)
Fixpoint moveLeft (less : string -> string -> bool) (x : string)
  (left : list string) : list string :=
  match left with
  | [] => [x]
  | p :: ps => if less x p then p :: moveLeft less x ps else x :: left
  end.

(** [sort.Slice] as the insertion sort the Go library runs on short
    slices.  The run command is stated for any sorting function that
    meets the contract of [sort.Slice]; this one is the instance used to
    evaluate it. *)
Definition insertionSort (less : string -> string -> bool)
  (data : list string) : list string :=
  rev (fold_left (fun left x => moveLeft less x left) data []).

Definition maxInt : Z := 2 ^ 63 - 1.
Definition minInt : Z := - 2 ^ 63.

Definition maxUint64 : Z := 2 ^ 64 - 1.

(** How the digit loop of [strconv.ParseUint] ends. *)
Inductive Scanned : Type :=
| Digits (n : Z)
| SyntaxError
| RangeError.

(** The digit loop of [strconv.ParseUint] for base 10 and 64 bits, which
    [strconv.Atoi] runs after the sign: a byte that is not a digit is a
    syntax error; a value that does not fit 64 bits is a range error,
    returned at the digit that exceeds them, before the bytes after it
    are read.  (The short path of [Atoi], for texts that cannot
    overflow, gives the same results.) *)
Fixpoint ParseUint (n : Z) (s : string) : Scanned :=
  match s with
  | EmptyString => Digits n
  | String ch r =>
      if isDigit ch then
        if n >=? maxUint64 / 10 + 1 then RangeError
        else
          let n1 := n * 10 + (Z.of_nat (nat_of_ascii ch) - 48) in
          if n1 >? maxUint64 then RangeError else ParseUint n1 r
      else SyntaxError
  end.

(** [strconv.Atoi]: an optional sign and decimal digits.  A syntax error
    gives 0 and an error, a value out of the range of [int] gives the
    nearest bound and an error. *)
Definition Atoi (s : string) : Z * option error :=
  let neg := startsWith "-" s in
  let digits := if neg || startsWith "+" s then tail s else s in
  if isEmpty digits then (0, Some (External "strconv.Atoi: invalid syntax"))
  else
    let cutoff := 2 ^ 63 in
    match ParseUint 0 digits with
    | SyntaxError => (0, Some (External "strconv.Atoi: invalid syntax"))
    | RangeError =>
        (if neg then minInt else maxInt,
         Some (External "strconv.Atoi: value out of range"))
    | Digits un =>
        if negb neg && (un >=? cutoff)
        then (maxInt, Some (External "strconv.Atoi: value out of range"))
        else if neg && (un >? cutoff)
        then (minInt, Some (External "strconv.Atoi: value out of range"))
        else (if neg then - un else un, None)
    end.

(** [float64(n)] for an [int64] [n]: the nearest value with a 53-bit
    significand, ties to even.  The value of the result is an integer,
    and is given as one. *)
Definition float64_of_int (n : Z) : Z :=
  let a := Z.abs n in
  let e := Z.log2 a in
  if e <? 53 then n
  else
    let ulp := 2 ^ (e - 52) in
    let q := a / ulp in
    let r := a mod ulp in
    let q' :=
      if 2 * r <? ulp then q
      else if 2 * r >? ulp then q + 1
      else if Z.even q then q else q + 1 in
    Z.sgn n * (q' * ulp).

(** [math.Mod(x, y)] on floats whose values are integers: the remainder
    of the truncated division, with the sign of [x]; it is computed
    without rounding. *)
Definition math_Mod (x y : Z) : Z := Z.rem x y.

End GoLib.

(** ** cmd/run.go *)

Module run.
Import GoString GoLib.

(** [meta.Version]: a version string, empty when none was requested. *)
Definition Version : Type := string.

(** Modelled from the spec: [meta.Version.IsEmpty], declared outside the
    files at hand; the empty string means that no version is specified. *)
Definition IsEmpty (v : Version) : bool := isEmpty v.

(** Modelled from the spec: the per-component version catalog returned
    by [repository.ComponentVersions], declared outside the files at
    hand; an ordered list of versions and a designated latest one. *)
Record VersionManifest := {
  Versions : list string;
  LatestVersion : Version
}.

(** The signals [RunE] registers with [signal.Notify]. *)
Inductive Signal : Type := SIGINT | SIGKILL | SIGTERM | SIGQUIT.

(** [type process struct] without the [cmd] field, whose state is the
    result of [Start] below. *)
Record process := {
  Component : string;
  CreatedTime : string;
  Pid : Z;
  Exec : string;
  Args : list string;
  Env : list string;
  Dir : string
}.

Definition setPid (p : process) (pid : Z) : process :=
  {| Component := Component p; CreatedTime := CreatedTime p; Pid := pid;
     Exec := Exec p; Args := Args p; Env := Env p; Dir := Dir p |}.

(** Which of the two channels of the [select] in [RunE] is ready first:
    a signal, or the result of [p.cmd.Wait()]. *)
Inductive RaceOutcome : Type :=
| SignalFirst (s : Signal)
| ExitFirst (waitErr : option error).

(** What the operating system reports for [p.cmd.Start()]: the process
    id when [p.cmd.Process] is not [nil], and the error. *)
Record StartResult := {
  startedPid : option Z;
  startErr : option error
}.

(** The collaborators of the run command: the local profile, the remote
    repository, the operating system, and the constants of package
    [localdata], each as the answer it gives to a call. *)
Record World := {
  (* package meta *)
  ParseCompVersion : string -> string * Version;
  (* profile *)
  profile_Manifest : option (string -> bool);
  profile_SaveManifest : option error;
  profile_InstalledVersions : string -> error + list string;
  profile_SaveVersions : string -> VersionManifest -> option error;
  profile_ComponentsDir : string;
  profile_BinaryPath : string -> Version -> error + string;
  profile_Root : string;
  profile_Path : string -> string;
  (* repository *)
  repository_Manifest : error + (string -> bool);
  repository_ComponentVersions : string -> error + VersionManifest;
  repository_DownloadComponent : string -> string -> option error;
  (* localdata *)
  EnvNameHome : string;
  EnvNameInstanceDataDir : string;
  DataParentDir : string;
  MetaFilename : string;
  (* os, filepath, time, syscall *)
  Getenv : string -> string;
  Environ : list string;
  MkdirAll : string -> option error;
  filepath_Join : string -> string -> string;
  UnixNano : Z;
  NowRFC3339 : string;
  Start : string -> list string -> list string -> string -> StartResult;
  OpenFile : string -> option error;
  Encode : process -> option error;
  Help : option error;
  Race : RaceOutcome;
  Kill : Z -> Signal -> option error;
  (* os/exec: whether [p.cmd.Wait()] has returned by the time [RunE]
     returns after a signal *)
  Reaped : bool
}.

(** The calls that leave the process, in the order they are made. *)
Inductive Event : Type :=
| EvRepositoryManifest
| EvSaveManifest
| EvInstalledVersions (component : string)
| EvComponentVersions (component : string)
| EvSaveVersions (component : string) (m : VersionManifest)
| EvDownloadComponent (dir spec : string)
| EvBinaryPath (component : string) (v : Version)
| EvMkdirAll (path : string)
| EvStart (binPath : string) (args env : list string) (dir : string)
| EvOpenFile (path : string)
| EvEncode (p : process)
| EvHelp
| EvWait
| EvKill (pid : Z) (sig : Signal)
(* [Process.Kill] by os/exec, for a command whose context is done *)
| EvProcessKill (pid : Z).

(** A computation that makes calls and may stop at the first error:
    the calls made, and the error or the value. *)
Definition M (A : Type) : Type := list Event * (error + A).

Definition ret {A : Type} (a : A) : M A := ([], inr a).

Definition bind {A B : Type} (m : M A) (k : A -> M B) : M B :=
  match m with
  | (t, inl e) => (t, inl e)
  | (t, inr a) => let '(t', r) := k a in ((t ++ t')%list, r)
  end.

(** One call: its event and its answer. *)
Definition call {A : Type} (ev : Event) (answer : error + A) : M A :=
  ([ev], answer).

(** One call that answers with an optional error only. *)
Definition callErr (ev : Event) (answer : option error) : M unit :=
  ([ev], match answer with Some e => inl e | None => inr tt end).

(** [errors.Trace] on the error of a call. *)
Definition traced {A : Type} (m : M A) : M A :=
  match m with
  | (t, inl e) => (t, inl (Trace e))
  | (t, inr a) => (t, inr a)
  end.

Declare Scope run_scope.
Delimit Scope run_scope with run.
Notation "x <- m ;; k" := (bind m (fun x => k))
  (at level 61, m at next level, right associativity) : run_scope.
Notation "m ;;; k" := (bind m (fun _ => k))
  (at level 61, right associativity) : run_scope.

(** *** base62Name *)

Definition base : Z := 62.
Definition sets : string :=
  "0123456789ABCDEFGHIJKLMNOPQRSTUVWXYZabcdefghijklmnopqrstuvwxyz".

(** How a loop that indexes a string ends. *)
Inductive Outcome (A : Type) : Type :=
| Returned (a : A)
| IndexPanic
| OutOfFuel.
Arguments Returned {A} a.
Arguments IndexPanic {A}.
Arguments OutOfFuel {A}.

(** [sets[i]]: panics outside [0 <= i < len(sets)]. *)
Definition index (s : string) (i : Z) : option ascii :=
  if (i <? 0) || (i >=? len s) then None else String.get (Z.to_nat i) s.

(** The loop of [base62Name]; [b] is the text built so far, and a turn
    puts the new digit in front of it. *)
Fixpoint base62Loop (fuel : nat) (num : Z) (b : string) : Outcome string :=
  if num >? 0 then
    match fuel with
    | O => OutOfFuel
    | S fuel' =>
        let r := math_Mod (float64_of_int num) (float64_of_int base) in
        let num' := Z.quot num base in
        match index sets r with
        | None => IndexPanic
        | Some c => base62Loop fuel' num' (String c b)
        end
    end
  else Returned b.

(** [base62Name], given the value of [time.Now().UnixNano()].  A turn
    divides [num] by 62, so one turn per bit of [num] is enough. *)
Definition base62 (num : Z) : Outcome string :=
  base62Loop (S (Z.to_nat (Z.log2 num))) num EmptyString.

Definition base62Name (w : World) : Outcome string := base62 (UnixNano w).

Section WithSort.

(** [sort.Slice] *)
Variable sortSlice : (string -> string -> bool) -> list string -> list string.

Variable w : World.

Open Scope run_scope.

(** The [less] function handed to [sort.Slice]. *)
Definition versionLess (a b : string) : bool := semver.Compare a b <? 0.

(** The loop that looks for [version] among the installed versions. *)
Fixpoint isInstalled (version : Version) (versions : list string) : bool :=
  match versions with
  | [] => false
  | v :: rest => if String.eqb v version then true else isInstalled version rest
  end.

(** The first part of [downloadIfMissing]: the version to run and
    whether it has to be downloaded.  The sort is in place, so the search
    runs over the sorted slice. *)
Definition resolve (versions : list string) (version : Version)
  : Version * bool :=
  let '(versions, version) :=
    if IsEmpty version && (0 <? Z.of_nat (List.length versions))
    then
      let sorted := sortSlice versionLess versions in
      (sorted, List.last sorted EmptyString)
    else (versions, version) in
  let needDownload := IsEmpty version in
  let needDownload :=
    if negb (IsEmpty version)
    then negb (isInstalled version versions)
    else needDownload in
  (version, needDownload).

(** The branch of [downloadIfMissing] taken when [needDownload] holds;
    it gives the version that was fetched. *)
Definition download (component : string) (version : Version) : M Version :=
  manifest <- traced (call (EvComponentVersions component)
                           (repository_ComponentVersions w component)) ;;
  traced (callErr (EvSaveVersions component manifest)
                  (profile_SaveVersions w component manifest)) ;;;
  let version :=
    if IsEmpty version then LatestVersion manifest else version in
  let compDir := profile_ComponentsDir w in
  let spec := component ++ ":" ++ version in
  traced (callErr (EvDownloadComponent compDir spec)
                  (repository_DownloadComponent w compDir spec)) ;;;
  ret version.

Definition downloadIfMissing (component : string) (version : Version)
  : M string :=
  versions <- call (EvInstalledVersions component)
                   (profile_InstalledVersions w component) ;;
  let '(version, needDownload) := resolve versions version in
  version <- (if needDownload then download component version
              else ret version) ;;
  call (EvBinaryPath component version)
       (profile_BinaryPath w component version).

(** What [launchComponent] returns: [nil] and an error, or the process
    record with the error of [Start], if any. *)
Inductive Launch : Type :=
| NoProcess (err : error)
| Launched (p : process) (err : option error).

(** The part of [launchComponent] before the command is built: the
    binary and the working directory.  [base62Name] always returns
    ([run_facts.base62_returns]), so the other branch of the match on
    its outcome is never taken. *)
Definition prepare (component : string) (version : Version) (name : string)
  : M (string * string) :=
  binPath <- downloadIfMissing component version ;;
  let wd := Getenv w (EnvNameInstanceDataDir w) in
  let wd :=
    if isEmpty wd then
      let name :=
        if isEmpty name then
          match base62Name w with
          | Returned s => s
          | _ => EmptyString
          end
        else name in
      profile_Path w (filepath_Join w (DataParentDir w) name)
    else wd in
  callErr (EvMkdirAll wd) (MkdirAll w wd) ;;;
  ret (binPath, wd).

Definition launchComponent (component : string) (version : Version)
  (name : string) (args : list string) : list Event * Launch :=
  match prepare component version name with
  | (t, inl err) => (t, NoProcess err)
  | (t, inr (binPath, wd)) =>
      let envs := [ EnvNameHome w ++ "=" ++ profile_Root w;
                    EnvNameInstanceDataDir w ++ "=" ++ wd ] in
      let cEnv := (Environ w ++ envs)%list in
      let p := {| Component := component;
                  CreatedTime := NowRFC3339 w;
                  Pid := 0;
                  Exec := binPath;
                  Args := args;
                  Env := envs;
                  Dir := wd |} in
      let st := Start w binPath args cEnv wd in
      let p := match startedPid st with
               | Some pid => setPid p pid
               | None => p
               end in
      ((t ++ [EvStart binPath args cEnv wd])%list, Launched p (startErr st))
  end.

(** [isSupportedComponent] *)
Definition isSupportedComponent (component : string) : list Event * bool :=
  let local :=
    match profile_Manifest w with
    | Some hasComponent => hasComponent component
    | None => false
    end in
  if local then ([], true)
  else
    match repository_Manifest w with
    | inl _ => ([EvRepositoryManifest], false)
    | inr hasComponent =>
        ([EvRepositoryManifest; EvSaveManifest], hasComponent component)
    end.

(** The block of [RunE] that saves the process record: the file is
    opened, and the record is encoded if that worked.  Neither error
    leaves the block. *)
Definition saveMeta (p : process) : list Event :=
  let metaFile := filepath_Join w (Dir p) (MetaFilename w) in
  match OpenFile w metaFile with
  | None => [EvOpenFile metaFile; EvEncode p]
  | Some _ => [EvOpenFile metaFile]
  end.

(** The guard of that block: [err == nil || (p != nil && p.Pid != 0)]. *)
Definition mustSave (l : Launch) : option process :=
  match l with
  | NoProcess _ => None
  | Launched p None => Some p
  | Launched p (Some _) => if negb (Pid p =? 0) then Some p else None
  end.

Definition launchErr (l : Launch) : option error :=
  match l with
  | NoProcess e => Some e
  | Launched _ err => err
  end.

(** The [select] of [RunE]: the signal is passed on to the child, a
    [tidb] child being killed instead; or the result of [Wait] is
    returned. *)
Definition waitOrSignal (component : string) (p : process)
  : list Event * option error :=
  match Race w with
  | SignalFirst s =>
      if String.eqb component "tidb"
      then ([EvKill (Pid p) SIGKILL], Kill w (Pid p) SIGKILL)
      else ([EvKill (Pid p) s], Kill w (Pid p) s)
  | ExitFirst waitErr =>
      ([EvWait],
       Annotatef waitErr
         ("start `" ++ Exec p ++ "` (wd:" ++ Dir p ++ ") failed"))
  end.

(** The child that is still waited for when [RunE] returns: the one of
    the record after a signal, unless [Wait] has returned in the
    meantime; none once the result of [Wait] was received. *)
Definition running (p : process) : option Z :=
  match Race w with
  | SignalFirst _ => if Reaped w then None else Some (Pid p)
  | ExitFirst _ => None
  end.

(** The deferred [cancel()].  The context is the one [launchComponent]
    binds the command to with [exec.CommandContext]: once it is done,
    os/exec kills, with [Process.Kill], the process of a command that
    was started and whose [Wait] has not returned.  [child] is the pid
    of that process, if there is one: there is none when nothing was
    started or [Start] returned an error. *)
Definition cancel (child : option Z) : list Event :=
  match child with
  | Some pid => [EvProcessKill pid]
  | None => []
  end.

(** The [RunE] closure of [newRunCmd]; [name] is the value of the
    [--name] flag.  The context is made once the component is known, and
    its [cancel] runs at every return after that.  What is printed on
    the standard output and the deferred [file.Close] are left out. *)
Definition RunE (name : string) (args : list string)
  : list Event * option error :=
  match args with
  | [] => ([EvHelp], Help w)
  | arg0 :: rest =>
      let '(component, version) := ParseCompVersion w arg0 in
      let '(t0, supported) := isSupportedComponent component in
      if negb supported then
        (t0, Some (Errorf ("unkonwn component `" ++ component
               ++ "` (see supported components via `tiup list --refresh`)")))
      else
        let '(t1, l) := launchComponent component version name rest in
        let t2 := match mustSave l with
                  | Some p => saveMeta p
                  | None => []
                  end in
        match l with
        | NoProcess err => ((t0 ++ t1 ++ t2 ++ cancel None)%list, Some err)
        | Launched _ (Some err) =>
            ((t0 ++ t1 ++ t2 ++ cancel None)%list, Some err)
        | Launched p None =>
            let '(t3, r) := waitOrSignal component p in
            ((t0 ++ t1 ++ t2 ++ t3 ++ cancel (running p))%list, r)
        end
  end.

End WithSort.

End run.

(** ** components/playground/command.go *)

Module playground.
Import GoString GoLib.

(** [type CommandType string] and its constants. *)
Definition CommandType : Type := string.
Definition ScaleInCommandType : CommandType := "scale-in".
Definition ScaleOutCommandType : CommandType := "scale-out".
Definition DisplayCommandType : CommandType := "display".
Definition RestartCommandType : CommandType := "handleRestart".
Definition PartitionCommandType : CommandType := "handlePartition".

(** Modelled from the spec: [instance.Config], declared outside the
    files at hand; the desired count of a kind and its instance
    configuration (host, config path, binary path), the four fields the
    flags of [newScaleOut] fill. *)
Record Config := {
  ConfigPath : string;
  BinPath : string;
  Num : Z;
  Host : string
}.

(** The zero value of [Config]. *)
Definition zeroConfig : Config :=
  {| ConfigPath := ""; BinPath := ""; Num := 0; Host := "" |}.

(** Modelled from the spec: the per-kind fields of [bootOptions],
    declared outside the files at hand, that [buildCommands] reads. *)
Record bootOptions := {
  pd : Config;
  tikv : Config;
  pump : Config;
  tiflash : Config;
  tidb : Config;
  ticdc : Config;
  drainer : Config
}.

(** [type Command struct]: one flat struct for every command type, the
    [instance.Config] being embedded. *)
Record Command := {
  CommandType_ : CommandType;
  PID : Z;
  ComponentID : string;
  Config_ : Config
}.

(** The inner loop of [buildCommands]: [n] turns, each appending [c]. *)
Fixpoint appendTimes (n : nat) (c : Command) (cmds : list Command)
  : list Command :=
  match n with
  | O => cmds
  | S n' => appendTimes n' c (cmds ++ [c])%list
  end.

(** The table of [buildCommands]. *)
Definition kinds (opt : bootOptions) : list (string * Config) :=
  [ ("pd", pd opt); ("tikv", tikv opt); ("pump", pump opt);
    ("tiflash", tiflash opt); ("tidb", tidb opt); ("ticdc", ticdc opt);
    ("drainer", drainer opt) ].

(** [buildCommands]; the loop [for i := 0; i < cmd.Num; i++] makes
    [cmd.Num] turns, none when [cmd.Num] is not positive. *)
Definition buildCommands (tp : CommandType) (opt : bootOptions)
  : list Command :=
  fold_left
    (fun cmds (cmd : string * Config) =>
       let c := {| CommandType_ := tp; PID := 0; ComponentID := fst cmd;
                   Config_ := snd cmd |} in
       appendTimes (Z.to_nat (Num (snd cmd))) c cmds)
    (kinds opt) [].

(** An HTTP request made with [http.Post(url, contentType, body)].  The
    body is the JSON encoding of the command, kept as the command. *)
Record Request := {
  url : string;
  contentType : string;
  body : Command
}.

(** A response body as [io.Copy] sees it: the bytes it delivers, and the
    read error that ends it, if any. *)
Record Response := {
  data : string;
  readErr : option error
}.

(** What happens outside the process, in order: a request posted, the
    bytes of a response copied to the standard output. *)
Inductive IOEvent : Type :=
| Posted (r : Request)
| Copied (bytes : string).

(** The collaborators: [targetTag], which reads the port of the running
    playground from the persisted state, and the network, which answers
    a request given everything exchanged before it. *)
Record Net := {
  targetTag : error + Z;
  Post : list IOEvent -> Request -> error + Response
}.

Section WithNet.

Variable net : Net.

(** [requestCommand]: one [http.Post]; [json.Marshal] has no error on
    this struct.  [t] is what was exchanged so far. *)
Definition requestCommand (cmd : Command) (addr : string) (t : list IOEvent)
  : (error + Response) * list IOEvent :=
  let u := "http://" ++ addr ++ "/command" in
  let req := {| url := u; contentType := "application/json"; body := cmd |} in
  match Post net t req with
  | inl err => (inl (AddStack err), (t ++ [Posted req])%list)
  | inr resp => (inr resp, (t ++ [Posted req])%list)
  end.

(** [sendCommandsAndPrintResult] *)
Fixpoint sendCommandsAndPrintResult (cmds : list Command) (addr : string)
  (t : list IOEvent) : option error * list IOEvent :=
  match cmds with
  | [] => (None, t)
  | cmd :: rest =>
      match requestCommand cmd addr t with
      | (inl err, t1) => (Some (AddStack err), t1)
      | (inr rc, t1) =>
          let t2 := (t1 ++ [Copied (data rc)])%list in
          match readErr rc with
          | Some err => (Some (AddStack err), t2)
          | None => sendCommandsAndPrintResult rest addr t2
          end
      end
  end.

(** The commands [scaleIn] builds from the pids. *)
Definition scaleInCommands (pids : list Z) : list Command :=
  fold_left
    (fun cmds pid =>
       (cmds ++ [ {| CommandType_ := ScaleInCommandType; PID := pid;
                     ComponentID := ""; Config_ := zeroConfig |} ])%list)
    pids [].

(** [scaleIn] *)
Definition scaleIn (pids : list Z) (t : list IOEvent)
  : option error * list IOEvent :=
  match targetTag net with
  | inl err => (Some (AddStack err), t)
  | inr port =>
      let cmds := scaleInCommands pids in
      let addr := "127.0.0.1:" ++ Itoa port in
      sendCommandsAndPrintResult cmds addr t
  end.

(** [scaleOut]: the number of commands and the error. *)
Definition scaleOut (opt : bootOptions) (t : list IOEvent)
  : (Z * option error) * list IOEvent :=
  match targetTag net with
  | inl err => ((0, Some (AddStack err)), t)
  | inr port =>
      let cmds := buildCommands ScaleOutCommandType opt in
      if Z.of_nat (List.length cmds) =? 0 then ((0, None), t)
      else
        let addr := "127.0.0.1:" ++ Itoa port in
        let '(err, t') := sendCommandsAndPrintResult cmds addr t in
        ((Z.of_nat (List.length cmds), err), t')
  end.

(** The command [display] builds. *)
Definition displayCommand : Command :=
  {| CommandType_ := DisplayCommandType; PID := 0; ComponentID := "";
     Config_ := zeroConfig |}.

(** [display] *)
Definition display (t : list IOEvent) : option error * list IOEvent :=
  match targetTag net with
  | inl err => (Some (AddStack err), t)
  | inr port =>
      let c := displayCommand in
      let addr := "127.0.0.1:" ++ Itoa port in
      sendCommandsAndPrintResult [c] addr t
  end.

(** The commands [partition] and [restart] build from their arguments;
    the error of [strconv.Atoi] is dropped. *)
Definition pidCommands (tp : CommandType) (args : list string)
  : list Command :=
  fold_left
    (fun cmds arg =>
       let '(pid, _) := Atoi arg in
       (cmds ++ [ {| CommandType_ := tp; PID := pid; ComponentID := "";
                     Config_ := zeroConfig |} ])%list)
    args [].

(** [partition] *)
Definition partition (args : list string) (t : list IOEvent)
  : option error * list IOEvent :=
  match targetTag net with
  | inl err => (Some err, t)
  | inr port =>
      let cmds := pidCommands PartitionCommandType args in
      let addr := "127.0.0.1" ++ Itoa port in
      sendCommandsAndPrintResult cmds addr t
  end.

(** [restart] *)
Definition restart (args : list string) (t : list IOEvent)
  : option error * list IOEvent :=
  match targetTag net with
  | inl err => (Some err, t)
  | inr port =>
      let cmds := pidCommands RestartCommandType args in
      let addr := "127.0.0.1" ++ Itoa port in
      sendCommandsAndPrintResult cmds addr t
  end.

End WithNet.

(** The five control operations and what each is given. *)
Inductive Operation : Type :=
| OpScaleOut (opt : bootOptions)
| OpScaleIn (pids : list Z)
| OpDisplay
| OpRestart (args : list string)
| OpPartition (args : list string).

(** Running an operation: its error and the exchange with the network. *)
Definition runOp (net : Net) (op : Operation) (t : list IOEvent)
  : option error * list IOEvent :=
  match op with
  | OpScaleOut opt => let '((_, err), t') := scaleOut net opt t in (err, t')
  | OpScaleIn pids => scaleIn net pids t
  | OpDisplay => display net t
  | OpRestart args => restart net args t
  | OpPartition args => partition net args t
  end.

(** The commands an operation builds. *)
Definition commandsOf (op : Operation) : list Command :=
  match op with
  | OpScaleOut opt => buildCommands ScaleOutCommandType opt
  | OpScaleIn pids => scaleInCommands pids
  | OpDisplay => [displayCommand]
  | OpRestart args => pidCommands RestartCommandType args
  | OpPartition args => pidCommands PartitionCommandType args
  end.

(** The requests among the events of an exchange. *)
Fixpoint requestsOf (t : list IOEvent) : list Request :=
  match t with
  | [] => []
  | Posted r :: rest => r :: requestsOf rest
  | Copied _ :: rest => requestsOf rest
  end.

(** The address the claim about target discovery asks for. *)
Definition loopbackAddr (port : Z) : string := "127.0.0.1:" ++ Itoa port.

End playground.

(** ** components/playground/command.go: the cobra commands

    [newScaleOut], [newScaleIn], [newDisplay], [newPartition] and
    [newRestart]: the flags they declare and their [RunE] closures.  The
    command line is taken as cobra hands it over: the flags given, in
    order, each with its value already read as an [int] or a string, and
    the positional arguments. *)

Module playground_cli.
Import GoString GoLib playground.

(** The seven kinds of [bootOptions]. *)
Inductive Kind : Type :=
| Kpd | Ktikv | Kpump | Ktiflash | Ktidb | Kticdc | Kdrainer.

(** [opt.<kind>] *)
Definition get (k : Kind) (opt : bootOptions) : Config :=
  match k with
  | Kpd => pd opt
  | Ktikv => tikv opt
  | Kpump => pump opt
  | Ktiflash => tiflash opt
  | Ktidb => tidb opt
  | Kticdc => ticdc opt
  | Kdrainer => drainer opt
  end.

(** [opt.<kind> = c] *)
Definition set (k : Kind) (c : Config) (opt : bootOptions) : bootOptions :=
  {| pd := if k is Kpd then c else pd opt;
     tikv := if k is Ktikv then c else tikv opt;
     pump := if k is Kpump then c else pump opt;
     tiflash := if k is Ktiflash then c else tiflash opt;
     tidb := if k is Ktidb then c else tidb opt;
     ticdc := if k is Kticdc then c else ticdc opt;
     drainer := if k is Kdrainer then c else drainer opt |}.

(** The variables the flags point to: [&opt.<kind>.Num] for the [int]
    flags, and one of the three string fields for the others. *)
Inductive StringField : Type := FHost | FConfigPath | FBinPath.

Definition getString (f : StringField) (c : Config) : string :=
  match f with
  | FHost => Host c
  | FConfigPath => ConfigPath c
  | FBinPath => BinPath c
  end.

Definition setString (f : StringField) (s : string) (c : Config) : Config :=
  {| ConfigPath := if f is FConfigPath then s else ConfigPath c;
     BinPath := if f is FBinPath then s else BinPath c;
     Num := Num c;
     Host := if f is FHost then s else Host c |}.

Definition setNum (n : Z) (c : Config) : Config :=
  {| ConfigPath := ConfigPath c; BinPath := BinPath c; Num := n;
     Host := Host c |}.

(** The [IntVarP] declarations of [newScaleOut], in order: the name of
    the flag, the kind whose [Num] it points to, and the kind whose [Num]
    is read for the default value. *)
Definition intFlags : list (string * Kind * Kind) :=
  [ ("db", Ktidb, Ktidb);
    ("kv", Ktikv, Ktikv);
    ("pd", Kpd, Kpd);
    ("tiflash", Ktiflash, Ktiflash);
    ("ticdc", Kticdc, Kticdc);
    ("pump", Kpump, Kpump);
    ("drainer", Kdrainer, Kpump) ].

(** The [StringVarP] declarations of [newScaleOut], in order: the name
    of the flag, and the kind and field it points to, which are also
    those read for the default value. *)
Definition stringFlags : list (string * Kind * StringField) :=
  [ ("db.host", Ktidb, FHost);
    ("pd.host", Kpd, FHost);
    ("db.config", Ktidb, FConfigPath);
    ("kv.config", Ktikv, FConfigPath);
    ("pd.config", Kpd, FConfigPath);
    ("tiflash.config", Ktidb, FConfigPath);
    ("pump.config", Kpump, FConfigPath);
    ("drainer.config", Kdrainer, FConfigPath);
    ("db.binpath", Ktidb, FBinPath);
    ("kv.binpath", Ktikv, FBinPath);
    ("pd.binpath", Kpd, FBinPath);
    ("tiflash.binpath", Ktiflash, FBinPath);
    ("ticdc.binpath", Kticdc, FBinPath);
    ("pump.binpath", Kpump, FBinPath);
    ("drainer.binpath", Kdrainer, FBinPath) ].

(** The zero value of [bootOptions]: [var opt bootOptions]. *)
Definition zeroOptions : bootOptions :=
  {| pd := zeroConfig; tikv := zeroConfig; pump := zeroConfig;
     tiflash := zeroConfig; tidb := zeroConfig; ticdc := zeroConfig;
     drainer := zeroConfig |}.

(** Declaring a flag stores its default value in the variable. *)
Definition declareInt (opt : bootOptions) (d : string * Kind * Kind)
  : bootOptions :=
  let '(_, target, source) := d in
  set target (setNum (Num (get source opt)) (get target opt)) opt.

Definition declareString (opt : bootOptions)
  (d : string * Kind * StringField) : bootOptions :=
  let '(_, k, f) := d in
  set k (setString f (getString f (get k opt)) (get k opt)) opt.

(** [opt] when [newScaleOut] returns: every flag declared. *)
Definition declared : bootOptions :=
  fold_left declareString stringFlags
    (fold_left declareInt intFlags zeroOptions).

(** A flag given on the command line, with its value. *)
Inductive FlagArg : Type :=
| IntArg (name : string) (value : Z)
| StringArg (name : string) (value : string).

(** The declaration of the flag with this name. *)
Fixpoint findInt (name : string) (ds : list (string * Kind * Kind))
  : option Kind :=
  match ds with
  | [] => None
  | (n, target, _) :: rest =>
      if String.eqb n name then Some target else findInt name rest
  end.

Fixpoint findString (name : string) (ds : list (string * Kind * StringField))
  : option (Kind * StringField) :=
  match ds with
  | [] => None
  | (n, k, f) :: rest =>
      if String.eqb n name then Some (k, f) else findString name rest
  end.

(** Setting one flag writes its variable; a name that is not declared
    with this type writes nothing. *)
Definition setFlag (opt : bootOptions) (a : FlagArg) : bootOptions :=
  match a with
  | IntArg name v =>
      match findInt name intFlags with
      | Some k => set k (setNum v (get k opt)) opt
      | None => opt
      end
  | StringArg name v =>
      match findString name stringFlags with
      | Some (k, f) => set k (setString f v (get k opt)) opt
      | None => opt
      end
  end.

(** [opt] once the flags of the command line are set, in their order. *)
Definition parseFlags (given : list FlagArg) : bootOptions :=
  fold_left setFlag given declared.

(** What a [RunE] closure leaves: whether [cmd.Help()] was called, and
    the error returned. *)
Record Ran := {
  helped : bool;
  returned : option error
}.

Section WithNet.

Variable net : Net.

(** The answer of [cmd.Help()]. *)
Variable Help : option error.

(** [RunE] of [newScaleOut] *)
Definition scaleOutRunE (given : list FlagArg) (t : list IOEvent)
  : Ran * list IOEvent :=
  let opt := parseFlags given in
  let '((num, err), t') := scaleOut net opt t in
  match err with
  | Some e => ({| helped := false; returned := Some e |}, t')
  | None =>
      if num =? 0 then ({| helped := true; returned := Help |}, t')
      else ({| helped := false; returned := None |}, t')
  end.

(** [RunE] of [newScaleIn]; [pids] are the values of the [--pid] flag. *)
Definition scaleInRunE (pids : list Z) (t : list IOEvent)
  : Ran * list IOEvent :=
  if Z.of_nat (List.length pids) =? 0
  then ({| helped := true; returned := Help |}, t)
  else
    let '(err, t') := scaleIn net pids t in
    ({| helped := false; returned := err |}, t').

(** [RunE] of [newDisplay], [newPartition] and [newRestart]. *)
Definition displayRunE (t : list IOEvent) : Ran * list IOEvent :=
  let '(err, t') := display net t in
  ({| helped := false; returned := err |}, t').

Definition partitionRunE (args : list string) (t : list IOEvent)
  : Ran * list IOEvent :=
  let '(err, t') := partition net args t in
  ({| helped := false; returned := err |}, t').

Definition restartRunE (args : list string) (t : list IOEvent)
  : Ran * list IOEvent :=
  let '(err, t') := restart net args t in
  ({| helped := false; returned := err |}, t').

End WithNet.

End playground_cli.

(** ** Sample collaborators

    Concrete worlds and networks on which the models are evaluated. *)

Module samples.
Import GoString GoLib.

(** [meta.ParseCompVersion] on a sample world: the text before the first
    colon, and the text after it. *)
Fixpoint splitColon (s : string) : string * string :=
  match s with
  | EmptyString => (EmptyString, EmptyString)
  | String c r =>
      if Ascii.eqb c ":" then (EmptyString, r)
      else let '(a, b) := splitColon r in (String c a, b)
  end.

(** A world with the given installed versions of every component, the
    given answers of the catalog, of [Start], of the race and of
    [OpenFile]; every other call succeeds, and a child that was sent a
    signal is still waited for when [RunE] returns. *)
Definition world (installed : list string)
  (catalog : error + run.VersionManifest) (st : run.StartResult)
  (race : run.RaceOutcome) (openErr : option error) : run.World :=
  {| run.ParseCompVersion := splitColon;
     run.profile_Manifest :=
       Some (fun c => String.eqb c "tidb" || String.eqb c "playground");
     run.profile_SaveManifest := None;
     run.profile_InstalledVersions := fun _ => inr installed;
     run.profile_SaveVersions := fun _ _ => None;
     run.profile_ComponentsDir := "/home/tiup/components";
     run.profile_BinaryPath :=
       fun c v => inr ("/home/tiup/components/" ++ c ++ "/" ++ v ++ "/" ++ c);
     run.profile_Root := "/home/tiup";
     run.profile_Path := fun p => "/home/tiup/" ++ p;
     run.repository_Manifest := inr (fun c => String.eqb c "tikv");
     run.repository_ComponentVersions := fun _ => catalog;
     run.repository_DownloadComponent := fun _ _ => None;
     run.EnvNameHome := "TIUP_HOME";
     run.EnvNameInstanceDataDir := "TIUP_INSTANCE_DATA_DIR";
     run.DataParentDir := "data";
     run.MetaFilename := "tiup_process_meta";
     run.Getenv := fun _ => EmptyString;
     run.Environ := ["PATH=/usr/bin"];
     run.MkdirAll := fun _ => None;
     run.filepath_Join := fun a b => a ++ "/" ++ b;
     run.UnixNano := 1588000000000000000;
     run.NowRFC3339 := "2020-04-27T15:06:40Z";
     run.Start := fun _ _ _ _ => st;
     run.OpenFile := fun _ => openErr;
     run.Encode := fun _ => None;
     run.Help := None;
     run.Race := race;
     run.Kill := fun _ _ => None;
     run.Reaped := false |}.

Definition catalog : run.VersionManifest :=
  {| run.Versions := ["v3.0.0"; "v4.0.0"]; run.LatestVersion := "v4.0.0" |}.

Definition started (pid : Z) : run.StartResult :=
  {| run.startedPid := Some pid; run.startErr := None |}.

Definition notStarted : run.StartResult :=
  {| run.startedPid := None;
     run.startErr := Some (External "fork/exec: no such file or directory") |}.

(** An installation with three versions, a running child with pid 4242
    and a signal arriving before the child exits. *)
Definition signalled (s : run.Signal) : run.World :=
  world ["v4.9.0"; "v5.0.0"; "v5.1.0"] (inr catalog) (started 4242)
        (run.SignalFirst s) None.

(** A playground on port 9527 that answers every request with the text
    given. *)
Definition answering (text : string) : playground.Net :=
  {| playground.targetTag := inr 9527;
     playground.Post := fun _ _ =>
       inr {| playground.data := text; playground.readErr := None |} |}.

(** A playground on port 9527 that cannot be reached for the first
    request, and answers the later ones. *)
Definition firstRequestFails : playground.Net :=
  {| playground.targetTag := inr 9527;
     playground.Post := fun t _ =>
       match t with
       | [] => inl (External "dial tcp: connection refused")
       | _ => inr {| playground.data := "ok"; playground.readErr := None |}
       end |}.

(** One [pd] and two [tidb] instances. *)
Definition onePdTwoTidb : playground.bootOptions :=
  let none := playground.zeroConfig in
  {| playground.pd :=
       {| playground.ConfigPath := "pd.toml"; playground.BinPath := "";
          playground.Num := 1; playground.Host := "127.0.0.1" |};
     playground.tikv := none;
     playground.pump := none;
     playground.tiflash := none;
     playground.tidb :=
       {| playground.ConfigPath := ""; playground.BinPath := "/bin/tidb";
          playground.Num := 2; playground.Host := "" |};
     playground.ticdc := none;
     playground.drainer := none |}.

End samples.

(** * Vocabulary of the properties *)

(** ** Orders given by a comparison *)

Module ordering.
Import GoString semver.

(** A comparison with results -1, 0 and 1 that is a strict total order
    on the values satisfying [P]. *)
Record OrderOn {A : Type} (P : A -> Prop) (c : A -> A -> Z) : Prop := {
  ord_range : forall x y, P x -> P y -> c x y = -1 \/ c x y = 0 \/ c x y = 1;
  ord_zero : forall x y, P x -> P y -> (c x y = 0 <-> x = y);
  ord_opp : forall x y, P x -> P y -> c y x = - c x y;
  ord_trans : forall x y z, P x -> P y -> P z ->
    c x y = -1 -> c y z = -1 -> c x z = -1
}.

(** No condition on a string. *)
Definition anyString (s : string) : Prop := True.

(** The order of two pre-release identifiers: equal, or as
    [compareIdent] finds them. *)
Definition identOrder (dx dy : string) : Z :=
  if String.eqb dx dy then 0 else compareIdent dx dy.

(** A string that is empty or starts with the separator [c]. *)
Definition separated (c : ascii) (s : string) : Prop :=
  match s with
  | EmptyString => True
  | String a _ => a = c
  end.

(** The loop with the fuel [comparePrerelease] gives it. *)
Definition loopOf (x y : string) : option Z :=
  prereleaseLoop (String.length x) x y.

(** Comparing pairs: the first components decide unless they are equal. *)
Definition lexCompare {A B : Type} (ca : A -> A -> Z) (cb : B -> B -> Z)
  (x y : A * B) : Z :=
  let c := ca (fst x) (fst y) in
  if negb (c =? 0) then c else cb (snd x) (snd y).

(** A pair whose components satisfy [PA] and [PB]. *)
Definition both {A B : Type} (PA : A -> Prop) (PB : B -> Prop)
  (x : A * B) : Prop := PA (fst x) /\ PB (snd x).

(** What [Compare] looks at in a parsed version. *)
Definition key (p : parsed) : string * (string * (string * string)) :=
  (major p, (minor p, (patch p, prerelease p))).

(** [Compare] on two parsed versions, as a comparison of their keys. *)
Definition compareKey :
  string * (string * (string * string)) ->
  string * (string * (string * string)) -> Z :=
  lexCompare compareInt
    (lexCompare compareInt (lexCompare compareInt comparePrerelease)).

(** The keys [parse] produces: the pre-release is empty or starts
    with the hyphen. *)
Definition goodKey : string * (string * (string * string)) -> Prop :=
  both anyString (both anyString (both anyString (separated "-"))).

End ordering.

(** ** The contract of a sort *)

Module sorting.

(** What [sort.Slice] promises for a [less] that is a strict weak order
    (no two elements below each other, and "not below" transitive): the
    slice is rearranged, and no element is below an earlier one. *)
Definition Sorts
  (sortSlice : (string -> string -> bool) -> list string -> list string)
  : Prop :=
  forall less data,
    (forall a b, less a b = true -> less b a = false) ->
    (forall a b c, less a b = false -> less b c = false -> less a c = false) ->
    Permutation data (sortSlice less data)
    /\ StronglySorted (fun a b => less b a = false) (sortSlice less data).

(** The sorted part, nearest neighbour first: nothing is below a later
    element. *)
Definition descending (less : string -> string -> bool)
  (l : list string) : Prop :=
  StronglySorted (fun a b => less a b = false) l.

End sorting.

(** ** Events of the run command *)

Module run_vocabulary.
Import GoString GoLib run.

(** A name of an installed version: a directory name, not empty. *)
Definition isName (v : string) : Prop := v <> EmptyString.

(** The download calls among the events: the artifact specs asked for. *)
Fixpoint downloadsOf (t : list Event) : list string :=
  match t with
  | [] => []
  | EvDownloadComponent _ spec :: rest => spec :: downloadsOf rest
  | _ :: rest => downloadsOf rest
  end.

(** The calls to the remote repository among the events. *)
Fixpoint remoteCalls (t : list Event) : list Event :=
  match t with
  | [] => []
  | EvRepositoryManifest :: rest => EvRepositoryManifest :: remoteCalls rest
  | EvComponentVersions c :: rest => EvComponentVersions c :: remoteCalls rest
  | EvDownloadComponent d s :: rest =>
      EvDownloadComponent d s :: remoteCalls rest
  | _ :: rest => remoteCalls rest
  end.

(** The signals [RunE] sends with [syscall.Kill] among the events. *)
Fixpoint killsOf (t : list Event) : list (Z * Signal) :=
  match t with
  | [] => []
  | EvKill pid sig :: rest => (pid, sig) :: killsOf rest
  | _ :: rest => killsOf rest
  end.

(** The signals a process is sent among the events, whoever sends
    them: those of [syscall.Kill], and the SIGKILL of [Process.Kill]. *)
Fixpoint signalsOf (t : list Event) : list (Z * Signal) :=
  match t with
  | [] => []
  | EvKill pid sig :: rest => (pid, sig) :: signalsOf rest
  | EvProcessKill pid :: rest => (pid, SIGKILL) :: signalsOf rest
  | _ :: rest => signalsOf rest
  end.

(** The files opened for the process record among the events. *)
Fixpoint opensOf (t : list Event) : list string :=
  match t with
  | [] => []
  | EvOpenFile path :: rest => path :: opensOf rest
  | _ :: rest => opensOf rest
  end.

(** Events among which no signal is sent and no file is opened. *)
Definition quiet (t : list Event) : Prop :=
  killsOf t = [] /\ opensOf t = [] /\ signalsOf t = [].

(** The same world with other answers of [OpenFile] and [Encode]. *)
Definition withPersist (w : World) (openFile : string -> option error)
  (encode : process -> option error) : World :=
  {| ParseCompVersion := ParseCompVersion w;
     profile_Manifest := profile_Manifest w;
     profile_SaveManifest := profile_SaveManifest w;
     profile_InstalledVersions := profile_InstalledVersions w;
     profile_SaveVersions := profile_SaveVersions w;
     profile_ComponentsDir := profile_ComponentsDir w;
     profile_BinaryPath := profile_BinaryPath w;
     profile_Root := profile_Root w;
     profile_Path := profile_Path w;
     repository_Manifest := repository_Manifest w;
     repository_ComponentVersions := repository_ComponentVersions w;
     repository_DownloadComponent := repository_DownloadComponent w;
     EnvNameHome := EnvNameHome w;
     EnvNameInstanceDataDir := EnvNameInstanceDataDir w;
     DataParentDir := DataParentDir w;
     MetaFilename := MetaFilename w;
     Getenv := Getenv w;
     Environ := Environ w;
     MkdirAll := MkdirAll w;
     filepath_Join := filepath_Join w;
     UnixNano := UnixNano w;
     NowRFC3339 := NowRFC3339 w;
     Start := Start w;
     OpenFile := openFile;
     Encode := encode;
     Help := Help w;
     Race := Race w;
     Kill := Kill w;
     Reaped := Reaped w |}.

(** The pid [launchComponent] leaves in the record. *)
Definition observedPid (st : StartResult) : Z :=
  match startedPid st with
  | Some pid => pid
  | None => 0
  end.

(** The bytes of a string. *)
Fixpoint bytes (s : string) : list ascii :=
  match s with
  | EmptyString => []
  | String c r => c :: bytes r
  end.

(** An installation with a name that is not a semantic version next to
    a version. *)
Definition malformedWorld : World :=
  samples.world ["nightly"; "v1.0.0"] (inr samples.catalog)
                (samples.started 4242) (ExitFirst None) None.

(** An installation with the single version v4.0.0, and a catalog
    within reach. *)
Definition installedWorld : World :=
  samples.world ["v4.0.0"] (inr samples.catalog) (samples.started 4242)
                (ExitFirst None) None.

(** The same installation with a catalog that cannot be fetched. *)
Definition offlineWorld : World :=
  samples.world ["v4.0.0"] (inl (External "connection refused"))
                (samples.started 4242) (ExitFirst None) None.

(** A child that was created (pid 4242) although [Start] returned an
    error, and a metadata file that cannot be opened. *)
Definition halfStartedWorld : World :=
  samples.world ["v5.1.0"] (inr samples.catalog)
    {| startedPid := Some 4242;
       startErr := Some (External "start: pipe setup failed") |}
    (ExitFirst None) (Some (External "open: permission denied")).

(** A start that failed without leaving a process. *)
Definition notStartedWorld : World :=
  samples.world ["v5.1.0"] (inr samples.catalog) samples.notStarted
    (ExitFirst None) None.

End run_vocabulary.

(** ** Requests of the playground commands *)

Module playground_vocabulary.
Import GoString GoLib playground.

(** The request [requestCommand] posts for a command. *)
Definition request (addr : string) (cmd : Command) : Request :=
  {| url := "http://" ++ addr ++ "/command";
     contentType := "application/json";
     body := cmd |}.

(** The dispatch as the specification words it: the commands go out
    one after the other, each in one round trip; the body of a response
    is copied whole before the next command goes out; the first request
    or copy that fails ends the dispatch with its error.  [before] is
    what was exchanged earlier, [new] what this dispatch exchanges. *)
Inductive Dispatch (net : Net) (addr : string) :
  list IOEvent -> list Command -> list IOEvent -> option error -> Prop :=
| dispatch_done (before : list IOEvent) :
    Dispatch net addr before [] [] None
| dispatch_request_fails (before : list IOEvent) (cmd : Command)
    (rest : list Command) (err : error) :
    Post net before (request addr cmd) = inl err ->
    Dispatch net addr before (cmd :: rest)
      [Posted (request addr cmd)] (Some (AddStack (AddStack err)))
| dispatch_copy_fails (before : list IOEvent) (cmd : Command)
    (rest : list Command) (resp : Response) (err : error) :
    Post net before (request addr cmd) = inr resp ->
    readErr resp = Some err ->
    Dispatch net addr before (cmd :: rest)
      [Posted (request addr cmd); Copied (data resp)] (Some (AddStack err))
| dispatch_next (before : list IOEvent) (cmd : Command)
    (rest : list Command) (resp : Response) (new : list IOEvent)
    (r : option error) :
    Post net before (request addr cmd) = inr resp ->
    readErr resp = None ->
    Dispatch net addr
      (before ++ [Posted (request addr cmd); Copied (data resp)])%list
      rest new r ->
    Dispatch net addr before (cmd :: rest)
      (Posted (request addr cmd) :: Copied (data resp) :: new) r.

(** The command [scaleIn] builds for a pid. *)
Definition scaleInCommand (pid : Z) : Command :=
  {| CommandType_ := ScaleInCommandType; PID := pid; ComponentID := "";
     Config_ := zeroConfig |}.

(** A command that holds nothing but what its type uses: a pid for
    scale-in, restart and partition; a kind and its configuration for
    scale-out; nothing for display.  A field that is not used holds its
    zero value. *)
Definition onlyRelevant (c : Command) : Prop :=
  if String.eqb (CommandType_ c) ScaleOutCommandType then PID c = 0
  else if String.eqb (CommandType_ c) ScaleInCommandType
          || String.eqb (CommandType_ c) RestartCommandType
          || String.eqb (CommandType_ c) PartitionCommandType
  then ComponentID c = "" /\ Config_ c = zeroConfig
  else if String.eqb (CommandType_ c) DisplayCommandType
  then PID c = 0 /\ ComponentID c = "" /\ Config_ c = zeroConfig
  else False.

(** The address each operation sends to, for a port: [scaleIn],
    [scaleOut] and [display] join host and port with a colon, [restart]
    and [partition] do not. *)
Definition addressOf (op : Operation) (port : Z) : string :=
  match op with
  | OpScaleOut _ | OpScaleIn _ | OpDisplay => "127.0.0.1:" ++ Itoa port
  | OpRestart _ | OpPartition _ => "127.0.0.1" ++ Itoa port
  end.

End playground_vocabulary.

(** ** Further events and readings *)

Module coverage_vocabulary.
Import GoString GoLib run.

(** The [Start] calls among the events. *)
Fixpoint startsOf (t : list Event) : list Event :=
  match t with
  | [] => []
  | EvStart b a e d :: rest => EvStart b a e d :: startsOf rest
  | _ :: rest => startsOf rest
  end.

(** The directories created among the events. *)
Fixpoint mkdirsOf (t : list Event) : list string :=
  match t with
  | [] => []
  | EvMkdirAll d :: rest => d :: mkdirsOf rest
  | _ :: rest => mkdirsOf rest
  end.

(** The process records encoded among the events. *)
Fixpoint encodesOf (t : list Event) : list process :=
  match t with
  | [] => []
  | EvEncode p :: rest => p :: encodesOf rest
  | _ :: rest => encodesOf rest
  end.

(** The calls for a binary path among the events. *)
Fixpoint binaryPathsOf (t : list Event) : list (string * Version) :=
  match t with
  | [] => []
  | EvBinaryPath c v :: rest => (c, v) :: binaryPathsOf rest
  | _ :: rest => binaryPathsOf rest
  end.

(** The place of a byte in a string, counted from 0; the length of the
    string if the byte is not in it. *)
Fixpoint indexOf (c : ascii) (s : string) : Z :=
  match s with
  | EmptyString => 0
  | String a r => if Ascii.eqb a c then 0 else 1 + indexOf c r
  end.

(** The number a name stands for, read as a numeral in base 62 with the
    digits of [sets], most significant first; [acc] is the value of the
    digits read so far. *)
Fixpoint valueFrom (acc : Z) (s : string) : Z :=
  match s with
  | EmptyString => acc
  | String c r => valueFrom (acc * base + indexOf c sets) r
  end.

Definition value62 (s : string) : Z := valueFrom 0 s.

(** The number a text of decimal digits stands for, read after the
    digits that gave [n]; none if a byte is not a digit. *)
Fixpoint digitsValue (n : Z) (s : string) : option Z :=
  match s with
  | EmptyString => Some n
  | String ch r =>
      if isDigit ch
      then digitsValue (n * 10 + (Z.of_nat (nat_of_ascii ch) - 48)) r
      else None
  end.

(** Every way [downloadIfMissing] can go, with its events and result. *)
Inductive Fetch (w : World) (component : string) (v : Version)
  (download : bool) : list Event -> error + string -> Prop :=
| fetch_installed :
    download = false ->
    Fetch w component v download
      [EvInstalledVersions component; EvBinaryPath component v]
      (profile_BinaryPath w component v)
| fetch_no_catalog (e : error) :
    download = true ->
    repository_ComponentVersions w component = inl e ->
    Fetch w component v download
      [EvInstalledVersions component; EvComponentVersions component]
      (inl (Trace e))
| fetch_not_saved (m : VersionManifest) (e : error) :
    download = true ->
    repository_ComponentVersions w component = inr m ->
    profile_SaveVersions w component m = Some e ->
    Fetch w component v download
      [EvInstalledVersions component; EvComponentVersions component;
       EvSaveVersions component m]
      (inl (Trace e))
| fetch_download_fails (m : VersionManifest) (e : error) :
    download = true ->
    repository_ComponentVersions w component = inr m ->
    profile_SaveVersions w component m = None ->
    repository_DownloadComponent w (profile_ComponentsDir w)
      (component ++ ":" ++ (if IsEmpty v then LatestVersion m else v))
    = Some e ->
    Fetch w component v download
      [EvInstalledVersions component; EvComponentVersions component;
       EvSaveVersions component m;
       EvDownloadComponent (profile_ComponentsDir w)
         (component ++ ":" ++ (if IsEmpty v then LatestVersion m else v))]
      (inl (Trace e))
| fetch_downloaded (m : VersionManifest) :
    download = true ->
    repository_ComponentVersions w component = inr m ->
    profile_SaveVersions w component m = None ->
    repository_DownloadComponent w (profile_ComponentsDir w)
      (component ++ ":" ++ (if IsEmpty v then LatestVersion m else v))
    = None ->
    Fetch w component v download
      [EvInstalledVersions component; EvComponentVersions component;
       EvSaveVersions component m;
       EvDownloadComponent (profile_ComponentsDir w)
         (component ++ ":" ++ (if IsEmpty v then LatestVersion m else v));
       EvBinaryPath component
         (if IsEmpty v then LatestVersion m else v)]
      (profile_BinaryPath w component
         (if IsEmpty v then LatestVersion m else v)).

(** The working directory [launchComponent] settles on. *)
Definition workingDir (w : World) (name : string) : string :=
  if isEmpty (Getenv w (EnvNameInstanceDataDir w))
  then profile_Path w
         (filepath_Join w (DataParentDir w)
            (if isEmpty name
             then match base62Name w with
                  | Returned s => s
                  | _ => EmptyString
                  end
             else name))
  else Getenv w (EnvNameInstanceDataDir w).

(** The record [launchComponent] builds before [Start]. *)
Definition recordOf (w : World) (component bin : string)
  (args : list string) (wd : string) (pid : Z) : process :=
  {| Component := component;
     CreatedTime := NowRFC3339 w;
     Pid := pid;
     Exec := bin;
     Args := args;
     Env := [ (EnvNameHome w ++ "=" ++ profile_Root w)%string;
              (EnvNameInstanceDataDir w ++ "=" ++ wd)%string ];
     Dir := wd |}.

End coverage_vocabulary.

(** ** Further sample worlds *)

Module coverage_samples.
Import GoString GoLib run.

(** A home on a read-only file system: no directory can be made. *)
Definition readOnlyHome : World :=
  {| ParseCompVersion := samples.splitColon;
     profile_Manifest := Some (fun c => String.eqb c "tidb");
     profile_SaveManifest := None;
     profile_InstalledVersions := fun _ => inr ["v5.1.0"];
     profile_SaveVersions := fun _ _ => None;
     profile_ComponentsDir := "/home/tiup/components";
     profile_BinaryPath := fun c v => inr ("/home/tiup/components/" ++ c);
     profile_Root := "/home/tiup";
     profile_Path := fun p => "/home/tiup/" ++ p;
     repository_Manifest := inl (External "offline");
     repository_ComponentVersions := fun _ => inl (External "offline");
     repository_DownloadComponent := fun _ _ => None;
     EnvNameHome := "TIUP_HOME";
     EnvNameInstanceDataDir := "TIUP_INSTANCE_DATA_DIR";
     DataParentDir := "data";
     MetaFilename := "tiup_process_meta";
     Getenv := fun k =>
       if String.eqb k "TIUP_INSTANCE_DATA_DIR" then "/srv/outer"
       else EmptyString;
     Environ := ["TIUP_INSTANCE_DATA_DIR=/srv/outer"];
     MkdirAll := fun _ => Some (External "mkdir: read-only file system");
     filepath_Join := fun a b => a ++ "/" ++ b;
     UnixNano := 1588000000000000000;
     NowRFC3339 := "2020-04-27T15:06:40Z";
     Start := fun _ _ _ _ => samples.started 4242;
     OpenFile := fun _ => None;
     Encode := fun _ => None;
     Help := None;
     Race := ExitFirst None;
     Kill := fun _ _ => None;
     Reaped := false |}.

(** A run nested in another one, which names the data directory. *)
Definition nestedWorld : World :=
  {| ParseCompVersion := samples.splitColon;
     profile_Manifest := Some (fun c => String.eqb c "tidb");
     profile_SaveManifest := None;
     profile_InstalledVersions := fun _ => inr ["v5.1.0"];
     profile_SaveVersions := fun _ _ => None;
     profile_ComponentsDir := "/home/tiup/components";
     profile_BinaryPath := fun c v => inr ("/home/tiup/components/" ++ c);
     profile_Root := "/home/tiup";
     profile_Path := fun p => "/home/tiup/" ++ p;
     repository_Manifest := inl (External "offline");
     repository_ComponentVersions := fun _ => inl (External "offline");
     repository_DownloadComponent := fun _ _ => None;
     EnvNameHome := "TIUP_HOME";
     EnvNameInstanceDataDir := "TIUP_INSTANCE_DATA_DIR";
     DataParentDir := "data";
     MetaFilename := "tiup_process_meta";
     Getenv := fun k =>
       if String.eqb k "TIUP_INSTANCE_DATA_DIR" then "/srv/outer"
       else EmptyString;
     Environ := ["TIUP_INSTANCE_DATA_DIR=/srv/outer"];
     MkdirAll := fun _ => None;
     filepath_Join := fun a b => a ++ "/" ++ b;
     UnixNano := 1588000000000000000;
     NowRFC3339 := "2020-04-27T15:06:40Z";
     Start := fun _ _ _ _ => samples.started 4242;
     OpenFile := fun _ => None;
     Encode := fun _ => None;
     Help := None;
     Race := ExitFirst None;
     Kill := fun _ _ => None;
     Reaped := false |}.

(** No playground is running: the port cannot be read. *)
Definition nothingRuns : playground.Net :=
  {| playground.targetTag := inl (External "no playground is running");
     playground.Post := fun _ _ => inr {| playground.data := "ok"; playground.readErr := None |} |}.

End coverage_samples.

(** * Properties *)

(** ** The order of [semver.Compare] *)

Module semver_order.
Import GoString semver ordering.

Lemma strLess_lt (x y : string) :
  strLess x y = true <-> String_as_OT.lt x y.
Proof.
  unfold strLess, String.ltb.
  rewrite <- String_as_OT.cmp_lt. unfold String_as_OT.cmp.
  destruct (String.compare x y); split; congruence.
Qed.

Lemma strLess_trans (x y z : string) :
  strLess x y = true -> strLess y z = true -> strLess x z = true.
Proof.
  rewrite !strLess_lt. apply String_as_OT.lt_trans.
Qed.

Lemma strLess_irrefl (x : string) : strLess x x = false.
Proof.
  destruct (strLess x x) eqn:E; [|reflexivity].
  apply strLess_lt in E. apply String_as_OT.lt_not_eq in E.
  exfalso. apply E. reflexivity.
Qed.

Lemma strLess_total (x y : string) :
  x <> y -> strLess x y = false -> strLess y x = true.
Proof.
  unfold strLess, String.ltb. intros Hne.
  rewrite (String.compare_antisym y x).
  destruct (String.compare x y) eqn:E; simpl; try congruence.
  apply String.compare_eq_iff in E. congruence.
Qed.

Lemma strLess_asym (x y : string) :
  strLess x y = true -> strLess y x = false.
Proof.
  intros H. destruct (strLess y x) eqn:E; [|reflexivity].
  pose proof (strLess_trans _ _ _ H E) as H1.
  rewrite strLess_irrefl in H1. discriminate.
Qed.

Ltac string_cases :=
  repeat match goal with
  | |- context [String.eqb ?a ?b] =>
      destruct (String.eqb_spec a b); subst; simpl
  | H : context [String.eqb ?a ?b] |- _ =>
      destruct (String.eqb_spec a b); subst; simpl in H
  | |- context [Z.ltb ?a ?b] => destruct (Z.ltb_spec a b); simpl
  | H : context [Z.ltb ?a ?b] |- _ => destruct (Z.ltb_spec a b); simpl in H
  | |- context [Z.gtb ?a ?b] =>
      rewrite (Z.gtb_ltb a b); destruct (Z.ltb_spec b a); simpl
  | H : context [Z.gtb ?a ?b] |- _ =>
      rewrite (Z.gtb_ltb a b) in H; destruct (Z.ltb_spec b a); simpl in H
  end.

Ltac less_cases :=
  repeat match goal with
  | |- context [strLess ?a ?b] => destruct (strLess a b) eqn:?; simpl
  | H : context [if strLess ?a ?b then _ else _] |- _ =>
      destruct (strLess a b) eqn:?; simpl in H
  end.

Ltac less_facts :=
  repeat match goal with
  | H : strLess ?a ?a = true |- _ =>
      rewrite strLess_irrefl in H; discriminate
  | H1 : strLess ?a ?b = true, H2 : strLess ?b ?a = true |- _ =>
      rewrite (strLess_asym _ _ H1) in H2; discriminate
  | H1 : strLess ?a ?b = false, H2 : strLess ?b ?a = false |- _ =>
      assert (a = b) by
        (destruct (string_dec a b) as [|Hn]; [assumption|];
         rewrite (strLess_total _ _ Hn H1) in H2; discriminate);
      subst; clear H1
  | H1 : strLess ?a ?b = true, H2 : strLess ?b ?c = true,
    H3 : strLess ?a ?c = false |- _ =>
      rewrite (strLess_trans _ _ _ H1 H2) in H3; discriminate
  end.

Lemma compareInt_order : OrderOn anyString compareInt.
Proof.
  split; unfold compareInt.
  - intros x y _ _. string_cases; less_cases; auto.
  - intros x y _ _. split; intros H.
    + revert H. string_cases; less_cases; intros; auto; try discriminate; lia.
    + subst. now rewrite String.eqb_refl.
  - intros x y _ _.
    string_cases; try congruence; try lia; less_cases; less_facts;
      try reflexivity; try congruence.
  - intros x y z _ _ _.
    string_cases; try congruence; try lia; less_cases; less_facts;
      try reflexivity; try congruence; try lia.
Qed.

Lemma identOrder_order : OrderOn anyString identOrder.
Proof.
  split; unfold identOrder, compareIdent.
  - intros x y _ _. destruct (String.eqb_spec x y); auto.
    destruct (isNum x), (isNum y); simpl; string_cases; less_cases; auto.
  - intros x y _ _. split; intros H.
    + revert H. destruct (String.eqb_spec x y); auto.
      destruct (isNum x), (isNum y); simpl; string_cases; less_cases;
        intros; try discriminate; lia.
    + subst. now rewrite String.eqb_refl.
  - intros x y _ _. destruct (String.eqb_spec x y) as [E|E].
    { subst. now rewrite String.eqb_refl. }
    destruct (String.eqb_spec y x); [congruence|].
    destruct (isNum x), (isNum y); simpl; string_cases; try lia;
      less_cases; less_facts; try reflexivity; try congruence.
  - intros x y z _ _ _.
    destruct (String.eqb_spec x y); [discriminate|].
    destruct (String.eqb_spec y z); [discriminate|].
    destruct (String.eqb_spec x z) as [E|E].
    { subst z.
      destruct (isNum x), (isNum y); simpl; string_cases;
        try congruence; try lia; less_cases; less_facts;
        try congruence; try lia. }
    destruct (isNum x), (isNum y), (isNum z); simpl; string_cases;
      try congruence; try lia; less_cases; less_facts;
      try reflexivity; try congruence; try lia.
Qed.

Lemma nextIdent_spec (x : string) :
  x = (fst (nextIdent x) ++ snd (nextIdent x))%string
  /\ separated "." (snd (nextIdent x))
  /\ (String.length (snd (nextIdent x)) <= String.length x)%nat.
Proof.
  induction x as [|c r IH]; simpl.
  - auto.
  - destruct (Ascii.eqb_spec c "."); simpl.
    + subst. auto.
    + destruct (nextIdent r) as [d rest]; simpl in *.
      destruct IH as (E & S & L). repeat split; auto.
      now rewrite <- E.
Qed.

Lemma prereleaseLoop_enough (f1 : nat) :
  forall f2 x y, (String.length x <= f1)%nat -> (String.length x <= f2)%nat ->
  prereleaseLoop f1 x y = prereleaseLoop f2 x y.
Proof.
  induction f1 as [|f1 IH]; intros f2 x y L1 L2.
  - destruct x; simpl in L1; [|lia]. destruct f2; reflexivity.
  - destruct x as [|a x1]; [destruct f2, y; reflexivity|].
    destruct y as [|b y1]; [destruct f2; reflexivity|].
    destruct f2 as [|f2]; [simpl in L2; lia|].
    cbn [String.length prereleaseLoop isEmpty negb andb tail].
    pose proof (nextIdent_spec x1) as (_ & _ & Lx).
    destruct (nextIdent x1) as [dx x'], (nextIdent y1) as [dy y'].
    simpl in Lx, L1, L2.
    destruct (negb (dx =? dy)%string); [reflexivity|].
    apply IH; lia.
Qed.

Lemma prereleaseLoop_fuel (fuel : nat) (x y : string) :
  (String.length x <= fuel)%nat ->
  prereleaseLoop fuel x y = loopOf x y.
Proof.
  intros L. unfold loopOf. apply prereleaseLoop_enough; auto.
Qed.

Lemma loopOf_cons (a b : ascii) (x1 y1 : string) :
  loopOf (String a x1) (String b y1)
  = if negb (fst (nextIdent x1) =? fst (nextIdent y1))%string
    then Some (compareIdent (fst (nextIdent x1)) (fst (nextIdent y1)))
    else loopOf (snd (nextIdent x1)) (snd (nextIdent y1)).
Proof.
  unfold loopOf at 1.
  cbn [String.length prereleaseLoop isEmpty negb andb tail].
  pose proof (nextIdent_spec x1) as (_ & _ & Lx).
  destruct (nextIdent x1) as [dx x'], (nextIdent y1) as [dy y'].
  simpl in *.
  destruct (negb (dx =? dy)%string); [reflexivity|].
  now apply prereleaseLoop_fuel.
Qed.

Lemma loopOf_nil_l (y : string) : loopOf EmptyString y = Some (-1).
Proof. destruct y; reflexivity. Qed.

Lemma loopOf_nil_r (a : ascii) (x1 : string) :
  loopOf (String a x1) EmptyString = Some 1.
Proof. reflexivity. Qed.

Lemma same_ident_rest (x1 y1 : string) :
  fst (nextIdent x1) = fst (nextIdent y1) ->
  x1 <> y1 -> snd (nextIdent x1) <> snd (nextIdent y1).
Proof.
  intros E N R. apply N.
  rewrite (proj1 (nextIdent_spec x1)), (proj1 (nextIdent_spec y1)).
  now rewrite E, R.
Qed.

(** The loop ends, with -1 or 1, and swapping its arguments swaps the
    two results. *)
Lemma loopOf_opp (n : nat) :
  forall c x y, (String.length x <= n)%nat ->
  separated c x -> separated c y -> x <> y ->
  exists v, (v = -1 \/ v = 1)
            /\ loopOf x y = Some v /\ loopOf y x = Some (- v).
Proof.
  induction n as [|n IH]; intros c x y L Sx Sy N.
  - destruct x; simpl in L; [|lia].
    destruct y; [congruence|]. exists (-1). rewrite loopOf_nil_l. auto.
  - destruct x as [|a x1].
    + destruct y; [congruence|]. exists (-1). rewrite loopOf_nil_l. auto.
    + destruct y as [|b y1].
      * exists 1. rewrite loopOf_nil_l. auto.
      * simpl in Sx, Sy. subst a b.
        rewrite !loopOf_cons.
        destruct (String.eqb_spec (fst (nextIdent x1)) (fst (nextIdent y1)))
          as [E|E].
        -- rewrite E, String.eqb_refl. simpl.
           pose proof (nextIdent_spec x1) as (_ & S1 & L1).
           pose proof (nextIdent_spec y1) as (_ & S2 & _).
           simpl in L.
           apply (IH "."%char); auto; try lia.
           apply same_ident_rest; auto. congruence.
        -- assert (E' : fst (nextIdent y1) <> fst (nextIdent x1))
             by congruence.
           apply String.eqb_neq in E'. rewrite E'. simpl.
           pose proof (ord_opp _ _ identOrder_order
                         (fst (nextIdent x1)) (fst (nextIdent y1)) I I) as O.
           pose proof (ord_range _ _ identOrder_order
                         (fst (nextIdent x1)) (fst (nextIdent y1)) I I) as R.
           pose proof (ord_zero _ _ identOrder_order
                         (fst (nextIdent x1)) (fst (nextIdent y1)) I I) as Z0.
           unfold identOrder in O, R, Z0.
           rewrite E' in O. apply String.eqb_neq in E.
           rewrite E in O, R, Z0.
           exists (compareIdent (fst (nextIdent x1)) (fst (nextIdent y1))).
           repeat split; try congruence.
           apply String.eqb_neq in E.
           destruct R as [R|[R|R]]; auto. apply Z0 in R. congruence.
Qed.

Lemma compareIdent_trans (x y z : string) :
  x <> y -> y <> z ->
  compareIdent x y = -1 -> compareIdent y z = -1 ->
  compareIdent x z = -1 /\ x <> z.
Proof.
  intros Nxy Nyz Hxy Hyz.
  pose proof (ord_trans _ _ identOrder_order x y z I I I) as T.
  pose proof (ord_zero _ _ identOrder_order x z I I) as Z0.
  unfold identOrder in T, Z0.
  apply String.eqb_neq in Nxy, Nyz. rewrite Nxy, Nyz in T.
  specialize (T Hxy Hyz).
  destruct (String.eqb_spec x z) as [E|E].
  - discriminate.
  - auto.
Qed.

(** The loop is transitive on strings that differ. *)
Lemma loopOf_trans (n : nat) :
  forall c x y z, (String.length x <= n)%nat ->
  separated c x -> separated c y -> separated c z ->
  x <> y -> y <> z ->
  loopOf x y = Some (-1) -> loopOf y z = Some (-1) ->
  loopOf x z = Some (-1) /\ x <> z.
Proof.
  induction n as [|n IH]; intros c x y z L Sx Sy Sz Nxy Nyz Hxy Hyz.
  - destruct x; simpl in L; [|lia].
    rewrite loopOf_nil_l. split; [reflexivity|].
    destruct y; [congruence|]. destruct z; [discriminate|congruence].
  - destruct x as [|a x1].
    + rewrite loopOf_nil_l. split; [reflexivity|].
      destruct y; [congruence|]. destruct z; [discriminate|congruence].
    + destruct y as [|b y1]; [discriminate|].
      destruct z as [|d z1]; [discriminate|].
      simpl in Sx, Sy, Sz. subst a b d.
      rewrite loopOf_cons in *.
      pose proof (nextIdent_spec x1) as (_ & S1 & L1).
      pose proof (nextIdent_spec y1) as (_ & S2 & _).
      pose proof (nextIdent_spec z1) as (_ & S3 & _).
      simpl in L.
      destruct (String.eqb_spec (fst (nextIdent x1)) (fst (nextIdent y1)))
        as [E1|E1];
      destruct (String.eqb_spec (fst (nextIdent y1)) (fst (nextIdent z1)))
        as [E2|E2]; simpl in Hxy, Hyz.
      * rewrite E1, E2, String.eqb_refl. simpl.
        assert (N1 : snd (nextIdent x1) <> snd (nextIdent y1))
          by (apply same_ident_rest; congruence).
        assert (N2 : snd (nextIdent y1) <> snd (nextIdent z1))
          by (apply same_ident_rest; congruence).
        assert (LL : (String.length (snd (nextIdent x1)) <= n)%nat) by lia.
        destruct (IH "."%char _ _ _ LL S1 S2 S3 N1 N2 Hxy Hyz) as [H N].
        split; [assumption|].
        intros EQ. injection EQ as EQ. subst. now apply N.
      * rewrite E1. apply String.eqb_neq in E2. rewrite E2. simpl.
        split; [assumption|].
        apply String.eqb_neq in E2. intros EQ. injection EQ as EQ.
        subst. congruence.
      * rewrite <- E2. apply String.eqb_neq in E1. rewrite E1. simpl.
        split; [assumption|].
        apply String.eqb_neq in E1. intros EQ. injection EQ as EQ.
        subst. congruence.
      * injection Hxy as Hxy. injection Hyz as Hyz.
        destruct (compareIdent_trans _ _ _ E1 E2 Hxy Hyz) as [H N].
        apply String.eqb_neq in N. rewrite N. simpl.
        split; [congruence|].
        apply String.eqb_neq in N. intros EQ. injection EQ as EQ.
        subst. congruence.
Qed.

Lemma comparePrerelease_loop (x y : string) :
  x <> y -> x <> EmptyString -> y <> EmptyString ->
  separated "-" x -> separated "-" y ->
  exists v, (v = -1 \/ v = 1) /\ loopOf x y = Some v
            /\ comparePrerelease x y = v.
Proof.
  intros N Nx Ny Sx Sy.
  destruct (loopOf_opp (String.length x) "-"%char x y (le_n _) Sx Sy N)
    as (v & R & H & _).
  exists v. repeat split; auto.
  unfold comparePrerelease. apply String.eqb_neq in N. rewrite N.
  destruct x; [congruence|]. destruct y; [congruence|]. simpl isEmpty.
  cbv iota. unfold loopOf in H. now rewrite H.
Qed.

(** [comparePrerelease] is a strict total order on what [parse] leaves
    in the [prerelease] field: nothing, or a hyphen and identifiers;
    the empty pre-release is the greatest. *)
Lemma comparePrerelease_order : OrderOn (separated "-") comparePrerelease.
Proof.
  assert (CASES : forall x y, separated "-" x -> separated "-" y ->
            (x = y /\ comparePrerelease x y = 0)
            \/ (x <> y /\ x = EmptyString /\ comparePrerelease x y = 1)
            \/ (x <> y /\ x <> EmptyString /\ y = EmptyString
                /\ comparePrerelease x y = -1)
            \/ (x <> y /\ x <> EmptyString /\ y <> EmptyString
                /\ exists v, (v = -1 \/ v = 1) /\ loopOf x y = Some v
                             /\ comparePrerelease x y = v)).
  { intros x y Sx Sy.
    destruct (string_dec x y) as [E|N].
    - left. subst. unfold comparePrerelease. now rewrite String.eqb_refl.
    - right. destruct x as [|a x1].
      + left. repeat split; auto. unfold comparePrerelease.
        apply String.eqb_neq in N. now rewrite N.
      + right. destruct y as [|b y1].
        * left. repeat split; auto; discriminate.
        * right. repeat split; auto; try discriminate.
          apply comparePrerelease_loop; auto; discriminate. }
  split.
  - intros x y Sx Sy.
    destruct (CASES x y Sx Sy)
      as [(_ & H)|[(_ & _ & H)|[(_ & _ & _ & H)|(_ & _ & _ & v & R & _ & H)]]];
      rewrite H; auto. destruct R; auto.
  - intros x y Sx Sy.
    destruct (CASES x y Sx Sy)
      as [(E & H)|[(N & _ & H)|[(N & _ & _ & H)|(N & _ & _ & v & R & _ & H)]]];
      rewrite H; split; intros; try congruence; try lia.
  - intros x y Sx Sy.
    destruct (CASES x y Sx Sy)
      as [(E & H)|[(N & Ex & H)|[(N & Nx & Ey & H)
                                |(N & Nx & Ny & v & R & Lxy & H)]]];
    destruct (CASES y x Sy Sx)
      as [(E' & H')|[(N' & Ex' & H')|[(N' & Nx' & Ey' & H')
                                    |(N' & Nx' & Ny' & v' & R' & Lyx & H')]]];
      rewrite H, H'; try congruence; try reflexivity.
    destruct (loopOf_opp (String.length x) "-"%char x y (le_n _) Sx Sy N)
      as (u & _ & U1 & U2).
    congruence.
  - intros x y z Sx Sy Sz Hxy Hyz.
    destruct (CASES x y Sx Sy)
      as [(E & H)|[(N & Ex & H)|[(N & Nx & Ey & H)
                                |(N & Nx & Ny & v & R & Lxy & H)]]];
      try congruence.
    + subst y.
      destruct (CASES EmptyString z I Sz)
        as [(E' & H')|[(N' & Ex' & H')|[(N' & Nx' & Ey' & H')
                                      |(N' & Nx' & Ny' & v' & R' & Lyx & H')]]];
        congruence.
    + destruct (CASES y z Sy Sz)
        as [(E' & H')|[(N' & Ex' & H')|[(N' & Nx' & Ey' & H')
                                      |(N' & Nx' & Ny' & v' & R' & Lyz & H')]]];
        try congruence.
      * subst z.
        destruct (CASES x EmptyString Sx I)
          as [(E2 & H2)|[(N2 & Ex2 & H2)|[(N2 & Nx2 & Ey2 & H2)
                                        |(N2 & Nx2 & Ny2 & _)]]];
          congruence.
      * assert (Lxy' : loopOf x y = Some (-1)) by congruence.
        assert (Lyz' : loopOf y z = Some (-1)) by congruence.
        destruct (loopOf_trans (String.length x) "-"%char x y z (le_n _)
                    Sx Sy Sz N N' Lxy' Lyz') as [T Nxz].
        destruct (comparePrerelease_loop x z Nxz Nx Ny' Sx Sz)
          as (u & _ & U1 & U2).
        congruence.
Qed.

Ltac split_match H :=
  repeat match type of H with
  | context [match ?x with _ => _ end] =>
      destruct x eqn:?; try discriminate H
  | context [if ?x then _ else _] =>
      destruct x eqn:?; try discriminate H
  end.

Lemma parsePrerelease_separated (v t rest : string) :
  parsePrerelease v = Some (t, rest) -> separated "-" t.
Proof.
  unfold parsePrerelease. intros H. split_match H.
  injection H as <- _. reflexivity.
Qed.

Lemma parseSuffix_separated (ma mi pa v : string) (p : parsed) :
  parseSuffix ma mi pa v = Some p -> separated "-" (prerelease p).
Proof.
  unfold parseSuffix. intros H.
  destruct (if startsWith "-" v then parsePrerelease v
            else Some (EmptyString, v)) as [[pr v1]|] eqn:Hpre;
    [|discriminate].
  assert (S : separated "-" pr).
  { destruct (startsWith "-" v).
    - eapply parsePrerelease_separated; eassumption.
    - injection Hpre as <- _. exact I. }
  split_match H. injection H as <-. exact S.
Qed.

(** The [prerelease] field of a parsed version is empty or starts with
    the hyphen. *)
Lemma parse_separated (v : string) (p : parsed) :
  parse v = Some p -> separated "-" (prerelease p).
Proof.
  unfold parse. intros H. split_match H;
    try (injection H as <-; exact I);
    try (eapply parseSuffix_separated; eassumption).
Qed.

Lemma lexCompare_order {A B : Type} (PA : A -> Prop) (PB : B -> Prop)
  (ca : A -> A -> Z) (cb : B -> B -> Z) :
  OrderOn PA ca -> OrderOn PB cb ->
  OrderOn (both PA PB) (lexCompare ca cb).
Proof.
  intros OA OB. unfold both, lexCompare.
  split.
  - intros [a1 b1] [a2 b2] [Pa1 Pb1] [Pa2 Pb2]. simpl in *.
    pose proof (ord_range _ _ OA a1 a2 Pa1 Pa2).
    pose proof (ord_range _ _ OB b1 b2 Pb1 Pb2).
    destruct (Z.eqb_spec (ca a1 a2) 0); simpl; lia.
  - intros [a1 b1] [a2 b2] [Pa1 Pb1] [Pa2 Pb2]. simpl in *.
    pose proof (ord_zero _ _ OA a1 a2 Pa1 Pa2) as ZA.
    pose proof (ord_zero _ _ OB b1 b2 Pb1 Pb2) as ZB.
    destruct (Z.eqb_spec (ca a1 a2) 0) as [E|E]; simpl.
    + split; intros H.
      * f_equal; [now apply ZA | now apply ZB].
      * injection H as H1 H2. now apply ZB.
    + split; intros H; [contradiction|].
      injection H as H1 H2. exfalso. apply E. now apply ZA.
  - intros [a1 b1] [a2 b2] [Pa1 Pb1] [Pa2 Pb2]. simpl in *.
    rewrite (ord_opp _ _ OA a1 a2 Pa1 Pa2).
    rewrite (ord_opp _ _ OB b1 b2 Pb1 Pb2).
    destruct (Z.eqb_spec (ca a1 a2) 0), (Z.eqb_spec (- ca a1 a2) 0);
      simpl; lia.
  - intros [a1 b1] [a2 b2] [a3 b3] [Pa1 Pb1] [Pa2 Pb2] [Pa3 Pb3].
    simpl in *.
    pose proof (ord_range _ _ OA a1 a2 Pa1 Pa2) as R12.
    pose proof (ord_range _ _ OA a2 a3 Pa2 Pa3) as R23.
    pose proof (ord_zero _ _ OA a1 a2 Pa1 Pa2) as Z12.
    pose proof (ord_zero _ _ OA a2 a3 Pa2 Pa3) as Z23.
    pose proof (ord_trans _ _ OA a1 a2 a3 Pa1 Pa2 Pa3) as TA.
    pose proof (ord_trans _ _ OB b1 b2 b3 Pb1 Pb2 Pb3) as TB.
    destruct (Z.eqb_spec (ca a1 a2) 0) as [E1|E1];
      destruct (Z.eqb_spec (ca a2 a3) 0) as [E2|E2]; simpl; intros H1 H2.
    + apply Z12 in E1. apply Z23 in E2. subst a2 a3.
      destruct (Z.eqb_spec (ca a1 a1) 0) as [E|E]; simpl; [auto|].
      exfalso. apply E. now apply (ord_zero _ _ OA a1 a1 Pa1 Pa1).
    + apply Z12 in E1. subst a2.
      destruct (Z.eqb_spec (ca a1 a3) 0); simpl; [contradiction|assumption].
    + apply Z23 in E2. subst a3.
      destruct (Z.eqb_spec (ca a1 a2) 0); simpl; [contradiction|assumption].
    + rewrite (TA H1 H2). reflexivity.
Qed.

Lemma compareKey_order : OrderOn goodKey compareKey.
Proof.
  repeat apply lexCompare_order;
    auto using compareInt_order, comparePrerelease_order.
Qed.

Lemma parse_goodKey (v : string) (p : parsed) :
  parse v = Some p -> goodKey (key p).
Proof.
  intros H. repeat split. simpl. eapply parse_separated; eassumption.
Qed.

Lemma Compare_key (v w : string) :
  Compare v w =
  match parse v, parse w with
  | None, None => 0
  | None, Some _ => -1
  | Some _, None => 1
  | Some pv, Some pw => compareKey (key pv) (key pw)
  end.
Proof.
  unfold Compare. destruct (parse v), (parse w); reflexivity.
Qed.

(** [Compare] has the three results -1, 0 and 1. *)
Lemma Compare_range (v w : string) :
  Compare v w = -1 \/ Compare v w = 0 \/ Compare v w = 1.
Proof.
  rewrite Compare_key.
  destruct (parse v) eqn:Pv, (parse w) eqn:Pw; auto.
  apply (ord_range _ _ compareKey_order); eapply parse_goodKey; eassumption.
Qed.

(** Swapping the arguments of [Compare] negates the result. *)
Lemma Compare_opp (v w : string) : Compare w v = - Compare v w.
Proof.
  rewrite !Compare_key.
  destruct (parse v) eqn:Pv, (parse w) eqn:Pw; auto.
  apply (ord_opp _ _ compareKey_order); eapply parse_goodKey; eassumption.
Qed.

Lemma order_le_trans {A : Type} (P : A -> Prop) (c : A -> A -> Z) :
  OrderOn P c -> forall x y z, P x -> P y -> P z ->
  c x y <= 0 -> c y z <= 0 -> c x z <= 0.
Proof.
  intros O x y z Px Py Pz H1 H2.
  pose proof (ord_range _ _ O x y Px Py) as R1.
  pose proof (ord_range _ _ O y z Py Pz) as R2.
  assert (C1 : c x y = 0 \/ c x y = -1) by lia.
  assert (C2 : c y z = 0 \/ c y z = -1) by lia.
  destruct C1 as [C1|C1].
  - apply (ord_zero _ _ O x y Px Py) in C1. now subst y.
  - destruct C2 as [C2|C2].
    + apply (ord_zero _ _ O y z Py Pz) in C2. subst z. lia.
    + rewrite (ord_trans _ _ O x y z Px Py Pz C1 C2). lia.
Qed.

(** "Not above" under [Compare] is transitive. *)
Lemma Compare_trans (u v w : string) :
  Compare u v <= 0 -> Compare v w <= 0 -> Compare u w <= 0.
Proof.
  rewrite !Compare_key.
  destruct (parse u) eqn:Pu, (parse v) eqn:Pv, (parse w) eqn:Pw;
    try lia.
  apply (order_le_trans _ _ compareKey_order);
    eapply parse_goodKey; eassumption.
Qed.

(** An invalid version string is below every valid one and level with
    every invalid one. *)
Lemma Compare_invalid (v w : string) :
  IsValid v = false ->
  Compare v w = if IsValid w then -1 else 0.
Proof.
  unfold IsValid, Compare.
  destruct (parse v); [discriminate|]. intros _.
  destruct (parse w); reflexivity.
Qed.

End semver_order.

(** ** Evaluations of the library models *)

Module library_examples.

Import GoString GoLib semver.

Example parse_full :
  parse "v1.2.3-rc.1+build.5"
  = Some (mkParsed "1" "2" "3" "" "-rc.1" "+build.5").
Proof. reflexivity. Qed.

Example parse_short : parse "v2" = Some (mkParsed "2" "0" "0" ".0.0" "" "").
Proof. reflexivity. Qed.

Example invalid_samples :
  map IsValid ["1.2.3"; "v01.2.3"; "v1.2.3-"; "v1.2.3-01"; "v1.2."; "";
               "v1.2.3+"; "v1.2.3-a..b"; "nightly"]
  = [false; false; false; false; false; false; false; false; false].
Proof. reflexivity. Qed.

Example compare_samples :
  [Compare "v4.9.0" "v5.0.0"; Compare "v5.1.0" "v5.0.0";
   Compare "v1.10.0" "v1.9.0"; Compare "v1.0.0-alpha" "v1.0.0";
   Compare "v1.0.0-alpha" "v1.0.0-alpha.1";
   Compare "v1.0.0-alpha.1" "v1.0.0-alpha.beta";
   Compare "v1.0.0-beta.2" "v1.0.0-beta.11";
   Compare "v1.0.0-rc.1" "v1.0.0"; Compare "v1.0.0+a" "v1.0.0+b";
   Compare "v1" "v1.0.0"; Compare "nightly" "v0.0.1";
   Compare "nightly" "latest"]
  = [-1; 1; 1; -1; -1; -1; -1; -1; 0; 0; -1; 0].
Proof. reflexivity. Qed.


Example sort_samples :
  insertionSort run.versionLess
    ["v5.0.0"; "nightly"; "v4.9.0"; "v5.1.0"; "v5.1.0-rc.1"; "v10.0.0"]
  = ["nightly"; "v4.9.0"; "v5.0.0"; "v5.1.0-rc.1"; "v5.1.0"; "v10.0.0"].
Proof. reflexivity. Qed.

Example Atoi_samples :
  map (fun s => fst (Atoi s))
      ["111"; "-7"; "+42"; ""; "12a"; "1_000"; "99999999999999999999"]
  = [111; -7; 42; 0; 0; 0; maxInt].
Proof. reflexivity. Qed.

Example Atoi_range_samples :
  map Atoi
      ["9223372036854775807"; "9223372036854775808";
       "-9223372036854775808"; "-9223372036854775809";
       "9223372036854775808x"; "99999999999999999999x";
       "-99999999999999999999x"]
  = [(maxInt, None);
     (maxInt, Some (External "strconv.Atoi: value out of range"));
     (minInt, None);
     (minInt, Some (External "strconv.Atoi: value out of range"));
     (0, Some (External "strconv.Atoi: invalid syntax"));
     (maxInt, Some (External "strconv.Atoi: value out of range"));
     (minInt, Some (External "strconv.Atoi: value out of range"))].
Proof. reflexivity. Qed.

Example Itoa_samples :
  map Itoa [0; 9527; -1] = ["0"; "9527"; "-1"].
Proof. reflexivity. Qed.

End library_examples.

(** ** Sorting *)

Module sort_facts.
Import GoLib sorting.

Section Insertion.

Variable less : string -> string -> bool.
Hypothesis less_asym : forall a b, less a b = true -> less b a = false.
Hypothesis notless_trans :
  forall a b c, less a b = false -> less b c = false -> less a c = false.

Lemma moveLeft_perm (x : string) (left : list string) :
  Permutation (x :: left) (moveLeft less x left).
Proof.
  induction left as [|p ps IH]; simpl.
  - apply Permutation_refl.
  - destruct (less x p).
    + eapply perm_trans; [apply perm_swap|]. now apply perm_skip.
    + apply Permutation_refl.
Qed.

Lemma moveLeft_descending (x : string) (left : list string) :
  descending less left -> descending less (moveLeft less x left).
Proof.
  unfold descending.
  induction left as [|p ps IH]; simpl; intros D.
  - repeat constructor.
  - apply StronglySorted_inv in D. destruct D as [Dps Hp].
    destruct (less x p) eqn:E.
    + constructor; [auto|].
      rewrite Forall_forall in *. intros y Hy.
      apply (Permutation_in _ (Permutation_sym (moveLeft_perm x ps))) in Hy.
      destruct Hy as [<-|Hy]; auto.
    + constructor; [constructor; auto|].
      constructor; [assumption|].
      rewrite Forall_forall in *. intros y Hy.
      eapply notless_trans; eauto.
Qed.

Lemma fold_moveLeft (data left : list string) :
  descending less left ->
  Permutation (rev data ++ left)
              (fold_left (fun l x => moveLeft less x l) data left)
  /\ descending less (fold_left (fun l x => moveLeft less x l) data left).
Proof.
  revert left. induction data as [|x data IH]; simpl; intros left D.
  - split; [apply Permutation_refl | assumption].
  - destruct (IH (moveLeft less x left) (moveLeft_descending x left D))
      as [P S].
    split; [|assumption].
    eapply perm_trans; [|exact P].
    rewrite <- app_assoc. simpl.
    apply Permutation_app_head. apply moveLeft_perm.
Qed.

Lemma sorted_snoc (R : string -> string -> Prop) (l : list string)
  (a : string) :
  StronglySorted R l -> Forall (fun b => R b a) l ->
  StronglySorted R (l ++ [a]).
Proof.
  induction l as [|b l IH]; simpl; intros S F.
  - repeat constructor.
  - apply StronglySorted_inv in S. destruct S as [Sl Hb].
    apply Forall_cons_iff in F. destruct F as [Rb F].
    constructor; [now apply IH|].
    apply Forall_app. split; [assumption|]. now constructor.
Qed.

Lemma descending_rev (l : list string) :
  descending less l -> StronglySorted (fun a b => less b a = false) (rev l).
Proof.
  unfold descending. induction l as [|a l IH]; simpl; intros D.
  - constructor.
  - apply StronglySorted_inv in D. destruct D as [Dl Ha].
    apply sorted_snoc; [now apply IH|].
    rewrite Forall_forall in *. intros y Hy. apply Ha.
    now apply in_rev.
Qed.

Lemma insertionSort_sorts_with (data : list string) :
  Permutation data (insertionSort less data)
  /\ StronglySorted (fun a b => less b a = false) (insertionSort less data).
Proof.
  unfold insertionSort.
  destruct (fold_moveLeft data [] (SSorted_nil _)) as [P S].
  split.
  - rewrite app_nil_r in P.
    eapply perm_trans; [apply Permutation_rev|].
    eapply perm_trans; [exact P|]. apply Permutation_rev.
  - now apply descending_rev.
Qed.

End Insertion.

(** The insertion sort meets the contract of [sort.Slice]. *)
Lemma insertionSort_sorts : Sorts insertionSort.
Proof.
  intros less data A T. now apply insertionSort_sorts_with.
Qed.

(** The last element of a sorted slice: nothing in the slice is above
    it. *)
Lemma sorted_last (R : string -> string -> Prop) (l : list string)
  (d : string) :
  StronglySorted R l ->
  forall a, In a l -> a = List.last l d \/ R a (List.last l d).
Proof.
  induction 1 as [|b l S IH Hb]; intros a Ha; [destruct Ha|].
  destruct l as [|c l].
  - destruct Ha as [<-|[]]. now left.
  - change (List.last (b :: c :: l) d) with (List.last (c :: l) d).
    destruct Ha as [<-|Ha]; [|now apply IH].
    right. rewrite Forall_forall in Hb. apply Hb.
    clear. revert c. induction l as [|e l IHl]; intros c.
    + now left.
    + right. apply IHl.
Qed.

Lemma last_In (l : list string) (d : string) :
  l <> [] -> In (List.last l d) l.
Proof.
  induction l as [|a l IH]; [congruence|]. intros _.
  destruct l as [|b l]; [now left|].
  right. apply IH. discriminate.
Qed.

End sort_facts.

(** ** The run command *)

Module run_facts.
Import GoString GoLib run ordering sorting sort_facts run_vocabulary.

Lemma versionLess_asym (a b : string) :
  versionLess a b = true -> versionLess b a = false.
Proof.
  unfold versionLess. rewrite (semver_order.Compare_opp a b).
  intros H. apply Z.ltb_lt in H. apply Z.ltb_ge. lia.
Qed.

Lemma versionLess_notless_trans (a b c : string) :
  versionLess a b = false -> versionLess b c = false ->
  versionLess a c = false.
Proof.
  unfold versionLess. rewrite !Z.ltb_ge. intros H1 H2.
  pose proof (semver_order.Compare_trans c b a) as T.
  rewrite (semver_order.Compare_opp a b), (semver_order.Compare_opp b c),
    (semver_order.Compare_opp a c) in T.
  lia.
Qed.

Lemma Compare_refl (v : string) : semver.Compare v v = 0.
Proof. pose proof (semver_order.Compare_opp v v). lia. Qed.

Lemma isInstalled_In (version : Version) (versions : list string) :
  isInstalled version versions = true <-> In version versions.
Proof.
  induction versions as [|v rest IH]; simpl.
  - split; [discriminate | contradiction].
  - destruct (String.eqb_spec v version) as [E|E].
    + split; auto.
    + rewrite IH. split; auto. intros [H|H]; [contradiction|assumption].
Qed.

Lemma isEmpty_false (s : string) : s <> EmptyString -> isEmpty s = false.
Proof. destruct s; [congruence|reflexivity]. Qed.

(** With no version requested and something installed, [resolve] gives
    an installed version that no installed version is above, and asks
    for no download. *)
Lemma resolve_latest
  (sortSlice : (string -> string -> bool) -> list string -> list string)
  (versions : list string) :
  Sorts sortSlice -> versions <> [] -> Forall isName versions ->
  exists v, resolve sortSlice versions EmptyString = (v, false)
            /\ In v versions
            /\ forall u, In u versions -> semver.Compare u v <= 0.
Proof.
  intros HS Hne Hnames.
  destruct (HS versionLess versions versionLess_asym
              versionLess_notless_trans) as [P S].
  set (sorted := sortSlice versionLess versions) in *.
  assert (Hs : sorted <> []).
  { intros E. rewrite E in P. apply Permutation_sym in P.
    apply Permutation_nil in P. contradiction. }
  assert (Hin : In (List.last sorted EmptyString) sorted)
    by now apply last_In.
  exists (List.last sorted EmptyString).
  assert (Hv : In (List.last sorted EmptyString) versions)
    by (eapply Permutation_in; [apply Permutation_sym; exact P|exact Hin]).
  repeat split.
  - unfold resolve. simpl IsEmpty. cbv iota.
    assert (L : (0 <? Z.of_nat (List.length versions)) = true).
    { apply Z.ltb_lt. destruct versions; [congruence|simpl; lia]. }
    rewrite L. simpl andb. cbv iota. fold sorted.
    rewrite Forall_forall in Hnames.
    unfold IsEmpty. rewrite (isEmpty_false _ (Hnames _ Hv)). simpl.
    now rewrite (proj2 (isInstalled_In _ _) Hin).
  - exact Hv.
  - intros u Hu.
    apply (Permutation_in _ P) in Hu.
    destruct (sorted_last _ _ EmptyString S u Hu) as [->|H].
    + rewrite Compare_refl. lia.
    + unfold versionLess in H. apply Z.ltb_ge in H.
      rewrite (semver_order.Compare_opp (List.last sorted EmptyString) u).
      lia.
Qed.

(** C4: for an empty requested version and a non-empty list of
    installed versions (names of version directories, none of them
    empty), the resolved version is an installed version that is maximal
    under the order of [semver.Compare], and no download is needed; for
    the installed versions v4.9.0, v5.0.0 and v5.1.0 the result is v5.1.0
    without download.  This holds for every sorting function that meets
    the contract of [sort.Slice]. *)
Theorem resolve_empty_request_is_latest_installed
  (sortSlice : (string -> string -> bool) -> list string -> list string)
  (versions : list string)
  (HS : Sorts sortSlice)
  (Hne : versions <> [])
  (Hnames : Forall isName versions) :
  (exists v, resolve sortSlice versions EmptyString = (v, false)
             /\ In v versions
             /\ forall u, In u versions -> semver.Compare u v <= 0)
  /\ resolve sortSlice ["v4.9.0"; "v5.0.0"; "v5.1.0"] EmptyString
     = ("v5.1.0", false).
Proof.
  split; [now apply resolve_latest|].
  destruct (resolve_latest sortSlice ["v4.9.0"; "v5.0.0"; "v5.1.0"] HS)
    as (v & R & Hin & Hmax).
  - discriminate.
  - repeat constructor; discriminate.
  - rewrite R.
    pose proof (Hmax "v5.1.0" (or_intror (or_intror (or_introl eq_refl))))
      as M.
    destruct Hin as [<-|[<-|[<-|[]]]].
    + vm_compute in M. congruence.
    + vm_compute in M. congruence.
    + reflexivity.
Qed.

Lemma resolve_empty_request_is_latest_installed_witness :
  (exists v, resolve insertionSort ["v5.0.0"; "v4.9.0"] EmptyString
             = (v, false)
             /\ In v ["v5.0.0"; "v4.9.0"]
             /\ forall u, In u ["v5.0.0"; "v4.9.0"] ->
                          semver.Compare u v <= 0)
  /\ resolve insertionSort ["v4.9.0"; "v5.0.0"; "v5.1.0"] EmptyString
     = ("v5.1.0", false).
Proof.
  apply (resolve_empty_request_is_latest_installed insertionSort
           ["v5.0.0"; "v4.9.0"] insertionSort_sorts).
  - discriminate.
  - repeat constructor; discriminate.
Defined.

(** *** Malformed installed versions *)

(** With no version requested and something installed, nothing is
    downloaded: the installed versions are read and the path of the
    resolved one is asked for. *)
Lemma downloadIfMissing_latest
  (sortSlice : (string -> string -> bool) -> list string -> list string)
  (w : World) (component : string) (versions : list string) :
  Sorts sortSlice ->
  profile_InstalledVersions w component = inr versions ->
  versions <> [] -> Forall isName versions ->
  exists v, In v versions
    /\ (forall u, In u versions -> semver.Compare u v <= 0)
    /\ downloadIfMissing sortSlice w component EmptyString
       = ([EvInstalledVersions component; EvBinaryPath component v],
          profile_BinaryPath w component v).
Proof.
  intros HS HI Hne Hnames.
  destruct (resolve_latest sortSlice versions HS Hne Hnames)
    as (v & R & Hin & Hmax).
  exists v. repeat split; auto.
  unfold downloadIfMissing, call, bind. rewrite HI, R. simpl.
  now destruct (profile_BinaryPath w component v).
Qed.

Lemma valid_above_invalid (u v : string) :
  semver.IsValid u = true -> semver.Compare u v <= 0 ->
  semver.IsValid v = true.
Proof.
  intros Hu Hc. destruct (semver.IsValid v) eqn:Hv; [reflexivity|].
  pose proof (semver_order.Compare_invalid v u Hv) as C.
  rewrite Hu in C. rewrite (semver_order.Compare_opp v u) in Hc. lia.
Qed.

(** C5, as the code has it: an installed version string that is not a
    semantic version is not rejected.  [semver.Compare] puts it below
    every well-formed version and level with every other malformed one;
    resolution with an empty request then still picks an installed
    version, a well-formed one if one is installed, and the call goes on
    to ask for its binary path: whatever error it returns is the one of
    that lookup. *)
Theorem malformed_installed_versions_rank_lowest
  (sortSlice : (string -> string -> bool) -> list string -> list string)
  (w : World) (component : string) (versions : list string)
  (HS : Sorts sortSlice)
  (HI : profile_InstalledVersions w component = inr versions)
  (Hne : versions <> [])
  (Hnames : Forall isName versions) :
  (forall v u, semver.IsValid v = false ->
     semver.Compare v u = if semver.IsValid u then -1 else 0)
  /\ exists v, In v versions
       /\ ((exists u, In u versions /\ semver.IsValid u = true) ->
           semver.IsValid v = true)
       /\ resolve sortSlice versions EmptyString = (v, false)
       /\ downloadIfMissing sortSlice w component EmptyString
          = ([EvInstalledVersions component; EvBinaryPath component v],
             profile_BinaryPath w component v).
Proof.
  split; [apply semver_order.Compare_invalid|].
  destruct (downloadIfMissing_latest sortSlice w component versions
              HS HI Hne Hnames) as (v & Hin & Hmax & D).
  destruct (resolve_latest sortSlice versions HS Hne Hnames)
    as (v' & R & _ & _).
  exists v. repeat split; auto.
  - intros (u & Hu & Vu). eapply valid_above_invalid; eauto.
  - rewrite R. f_equal.
    unfold downloadIfMissing, call, bind in D. rewrite HI, R in D.
    simpl in D. destruct (profile_BinaryPath w component v');
      injection D as D _; congruence.
Qed.

Lemma malformed_installed_versions_rank_lowest_witness :
  (forall v u, semver.IsValid v = false ->
     semver.Compare v u = if semver.IsValid u then -1 else 0)
  /\ exists v, In v ["nightly"; "v1.0.0"]
       /\ ((exists u, In u ["nightly"; "v1.0.0"]
                      /\ semver.IsValid u = true) ->
           semver.IsValid v = true)
       /\ resolve insertionSort ["nightly"; "v1.0.0"] EmptyString
          = (v, false)
       /\ downloadIfMissing insertionSort malformedWorld "tidb" EmptyString
          = ([EvInstalledVersions "tidb"; EvBinaryPath "tidb" v],
             profile_BinaryPath malformedWorld "tidb" v).
Proof.
  apply (malformed_installed_versions_rank_lowest insertionSort
           malformedWorld "tidb" ["nightly"; "v1.0.0"] insertionSort_sorts).
  - reflexivity.
  - discriminate.
  - repeat constructor; discriminate.
Defined.

(** The claim C5 fails: with the malformed name "nightly" installed next
    to v1.0.0, the sort compares the two, no error is raised, and the
    call returns the path of v1.0.0; with "nightly" alone installed the
    call returns the path of "nightly". *)
Lemma malformed_installed_version_is_not_rejected :
  semver.IsValid "nightly" = false
  /\ semver.Compare "nightly" "v1.0.0" = -1
  /\ resolve insertionSort ["nightly"; "v1.0.0"] EmptyString
     = ("v1.0.0", false)
  /\ snd (downloadIfMissing insertionSort malformedWorld "tidb" EmptyString)
     = inr "/home/tiup/components/tidb/v1.0.0/tidb"
  /\ resolve insertionSort ["nightly"] EmptyString = ("nightly", false).
Proof. vm_compute. repeat split. Qed.

(** *** Downloads *)

Lemma resolve_requested (sortSlice : (string -> string -> bool) ->
                                     list string -> list string)
  (versions : list string) (version : Version) :
  version <> EmptyString ->
  resolve sortSlice versions version
  = (version, negb (isInstalled version versions)).
Proof.
  intros H. unfold resolve, IsEmpty. rewrite (isEmpty_false _ H).
  simpl. now rewrite (isEmpty_false _ H).
Qed.

Lemma resolve_nothing_installed
  (sortSlice : (string -> string -> bool) -> list string -> list string) :
  resolve sortSlice [] EmptyString = (EmptyString, true).
Proof. reflexivity. Qed.

(** The events of the download branch when the catalog is fetched and
    saved: the fetch, the save, one download of [component:version], the
    version being the latest of the catalog if none was determined. *)
Lemma download_events (w : World) (component : string) (version : Version)
  (m : VersionManifest) :
  repository_ComponentVersions w component = inr m ->
  profile_SaveVersions w component m = None ->
  let v := if IsEmpty version then LatestVersion m else version in
  let spec := (component ++ ":" ++ v)%string in
  download w component version
  = ([EvComponentVersions component; EvSaveVersions component m;
      EvDownloadComponent (profile_ComponentsDir w) spec],
     match repository_DownloadComponent w (profile_ComponentsDir w) spec with
     | Some e => inl (Trace e)
     | None => inr v
     end).
Proof.
  intros HC HSv. unfold download, bind, traced, call, callErr, ret.
  rewrite HC, HSv. simpl.
  match goal with
  | |- context [repository_DownloadComponent ?a ?b ?c] =>
      destruct (repository_DownloadComponent a b c)
  end; reflexivity.
Qed.

Lemma downloadIfMissing_download
  (sortSlice : (string -> string -> bool) -> list string -> list string)
  (w : World) (component : string) (version : Version)
  (versions : list string) (m : VersionManifest) :
  profile_InstalledVersions w component = inr versions ->
  resolve sortSlice versions version = (version, true) ->
  repository_ComponentVersions w component = inr m ->
  profile_SaveVersions w component m = None ->
  let v := if IsEmpty version then LatestVersion m else version in
  let spec := (component ++ ":" ++ v)%string in
  exists rest,
    fst (downloadIfMissing sortSlice w component version)
    = ([EvInstalledVersions component; EvComponentVersions component;
        EvSaveVersions component m;
        EvDownloadComponent (profile_ComponentsDir w) spec] ++ rest)%list
    /\ (rest = [] \/ rest = [EvBinaryPath component v]).
Proof.
  intros HI HR HC HSv v spec.
  unfold downloadIfMissing, bind, call. rewrite HI, HR.
  rewrite (download_events w component version m HC HSv).
  fold v. fold spec.
  destruct (repository_DownloadComponent w (profile_ComponentsDir w) spec).
  - exists []. simpl. auto.
  - exists [EvBinaryPath component v]. simpl.
    destruct (profile_BinaryPath w component v); simpl; auto.
Qed.

(** C8, as the code has it.  An installed exact version is run without
    any call to the repository.  An exact version that is not installed
    makes exactly one download call, for [component:version], provided
    the catalog was fetched and saved; with no version determined the
    latest of the catalog is taken for that download.  When the fetch of
    the catalog or its save fails, the call ends with that error and no
    download call is made. *)
Theorem downloads_of_downloadIfMissing
  (sortSlice : (string -> string -> bool) -> list string -> list string)
  (w : World) (component : string) (version : Version)
  (versions : list string)
  (HI : profile_InstalledVersions w component = inr versions) :
  (version <> EmptyString -> In version versions ->
   downloadIfMissing sortSlice w component version
   = ([EvInstalledVersions component; EvBinaryPath component version],
      profile_BinaryPath w component version))
  /\ (forall m, version <> EmptyString -> ~ In version versions ->
      repository_ComponentVersions w component = inr m ->
      profile_SaveVersions w component m = None ->
      downloadsOf (fst (downloadIfMissing sortSlice w component version))
      = [(component ++ ":" ++ version)%string])
  /\ (forall m, version = EmptyString -> versions = [] ->
      repository_ComponentVersions w component = inr m ->
      profile_SaveVersions w component m = None ->
      downloadsOf (fst (downloadIfMissing sortSlice w component version))
      = [(component ++ ":" ++ LatestVersion m)%string])
  /\ (forall e, resolve sortSlice versions version = (version, true) ->
      repository_ComponentVersions w component = inl e ->
      downloadIfMissing sortSlice w component version
      = ([EvInstalledVersions component; EvComponentVersions component],
         inl (Trace e)))
  /\ (forall m e, resolve sortSlice versions version = (version, true) ->
      repository_ComponentVersions w component = inr m ->
      profile_SaveVersions w component m = Some e ->
      downloadIfMissing sortSlice w component version
      = ([EvInstalledVersions component; EvComponentVersions component;
          EvSaveVersions component m],
         inl (Trace e))).
Proof.
  repeat split.
  - intros Hv Hin.
    unfold downloadIfMissing, bind, call. rewrite HI.
    rewrite (resolve_requested _ _ _ Hv).
    rewrite (proj2 (isInstalled_In _ _) Hin). simpl.
    now destruct (profile_BinaryPath w component version).
  - intros m Hv Hnin HC HSv.
    assert (R : resolve sortSlice versions version = (version, true)).
    { rewrite (resolve_requested _ _ _ Hv).
      destruct (isInstalled version versions) eqn:E; [|reflexivity].
      apply isInstalled_In in E. contradiction. }
    destruct (downloadIfMissing_download sortSlice w component version
                versions m HI R HC HSv) as (rest & -> & Hr).
    unfold IsEmpty. rewrite (isEmpty_false _ Hv).
    destruct Hr as [->| ->]; reflexivity.
  - intros m -> -> HC HSv.
    destruct (downloadIfMissing_download sortSlice w component EmptyString
                [] m HI (resolve_nothing_installed sortSlice) HC HSv)
      as (rest & -> & Hr).
    destruct Hr as [->| ->]; reflexivity.
  - intros e R HC.
    unfold downloadIfMissing, bind, call. rewrite HI, R.
    unfold download, bind, traced, call. rewrite HC. reflexivity.
  - intros m e R HC HSv.
    unfold downloadIfMissing, bind, call. rewrite HI, R.
    unfold download, bind, traced, call, callErr. rewrite HC, HSv.
    reflexivity.
Qed.

Lemma downloads_of_downloadIfMissing_witness :
  downloadsOf (fst (downloadIfMissing insertionSort installedWorld
                      "tidb" "v4.0.0")) = []
  /\ remoteCalls (fst (downloadIfMissing insertionSort installedWorld
                         "tidb" "v4.0.0")) = []
  /\ downloadsOf (fst (downloadIfMissing insertionSort installedWorld
                         "tidb" "v3.0.0")) = ["tidb:v3.0.0"].
Proof.
  pose proof (downloads_of_downloadIfMissing insertionSort installedWorld
                "tidb" "v4.0.0" ["v4.0.0"] eq_refl) as (A & _).
  pose proof (downloads_of_downloadIfMissing insertionSort installedWorld
                "tidb" "v3.0.0" ["v4.0.0"] eq_refl) as (_ & B & _).
  rewrite A.
  - split; [reflexivity|]. split; [reflexivity|].
    apply (B samples.catalog).
    + discriminate.
    + intros [H|[]]. discriminate.
    + reflexivity.
    + reflexivity.
  - discriminate.
  - now left.
Defined.

(** The claim C8 fails when the catalog cannot be fetched: the exact
    version v3.0.0 is not installed, and no download call is made. *)
Lemma no_download_when_catalog_fetch_fails :
  isInstalled "v3.0.0" ["v4.0.0"] = false
  /\ downloadsOf (fst (downloadIfMissing insertionSort offlineWorld
                         "tidb" "v3.0.0")) = []
  /\ downloadIfMissing insertionSort offlineWorld "tidb" "v3.0.0"
     = ([EvInstalledVersions "tidb"; EvComponentVersions "tidb"],
        inl (Trace (External "connection refused"))).
Proof. vm_compute. repeat split. Qed.

(** *** Signals *)

Lemma killsOf_app (t1 t2 : list Event) :
  killsOf (t1 ++ t2) = (killsOf t1 ++ killsOf t2)%list.
Proof.
  induction t1 as [|e t1 IH]; [reflexivity|].
  destruct e; simpl; now rewrite IH.
Qed.

Lemma opensOf_app (t1 t2 : list Event) :
  opensOf (t1 ++ t2) = (opensOf t1 ++ opensOf t2)%list.
Proof.
  induction t1 as [|e t1 IH]; [reflexivity|].
  destruct e; simpl; now rewrite IH.
Qed.

Lemma signalsOf_app (t1 t2 : list Event) :
  signalsOf (t1 ++ t2) = (signalsOf t1 ++ signalsOf t2)%list.
Proof.
  induction t1 as [|e t1 IH]; [reflexivity|].
  destruct e; simpl; now rewrite IH.
Qed.

Lemma quiet_app (t1 t2 : list Event) :
  quiet t1 -> quiet t2 -> quiet (t1 ++ t2).
Proof.
  unfold quiet. rewrite killsOf_app, opensOf_app, signalsOf_app.
  intros (-> & -> & ->) (-> & -> & ->). auto.
Qed.

Lemma quiet_bind {A B : Type} (m : M A) (k : A -> M B) :
  quiet (fst m) -> (forall a, quiet (fst (k a))) -> quiet (fst (bind m k)).
Proof.
  intros Hm Hk. destruct m as [t [e|a]]; simpl in *; [assumption|].
  specialize (Hk a). destruct (k a) as [t' r]. simpl in *.
  now apply quiet_app.
Qed.

Lemma quiet_traced {A : Type} (m : M A) :
  quiet (fst m) -> quiet (fst (traced m)).
Proof. destruct m as [t [e|a]]; auto. Qed.

Section Traces.

Variable sortSlice : (string -> string -> bool) -> list string -> list string.
Variable w : World.

Lemma isSupportedComponent_quiet (component : string) :
  quiet (fst (isSupportedComponent w component)).
Proof.
  unfold isSupportedComponent.
  destruct (match profile_Manifest w with
            | Some hasComponent => hasComponent component
            | None => false
            end); [repeat split|].
  destruct (repository_Manifest w); repeat split.
Qed.

Lemma download_quiet (component : string) (version : Version) :
  quiet (fst (download w component version)).
Proof.
  unfold download.
  apply quiet_bind; [apply quiet_traced; repeat split|]. intros m.
  apply quiet_bind; [apply quiet_traced; repeat split|]. intros _.
  apply quiet_bind; [apply quiet_traced; repeat split|]. intros _.
  repeat split.
Qed.

Lemma downloadIfMissing_quiet (component : string) (version : Version) :
  quiet (fst (downloadIfMissing sortSlice w component version)).
Proof.
  unfold downloadIfMissing.
  apply quiet_bind; [repeat split|]. intros versions.
  destruct (resolve sortSlice versions version) as [v need].
  apply quiet_bind.
  - destruct need; [apply download_quiet | repeat split].
  - intros v'. repeat split.
Qed.

Lemma launchComponent_quiet (component : string) (version : Version)
  (name : string) (args : list string) :
  quiet (fst (launchComponent sortSlice w component version name args)).
Proof.
  unfold launchComponent.
  assert (Q : quiet (fst (prepare sortSlice w component version name))).
  { unfold prepare.
    apply quiet_bind; [apply downloadIfMissing_quiet|]. intros binPath.
    apply quiet_bind; [repeat split|]. intros _. repeat split. }
  destruct (prepare sortSlice w component version name) as [t [e|[bin wd]]];
    simpl in *; [assumption|].
  apply quiet_app; [assumption | repeat split].
Qed.



(** The deferred [cancel] calls nothing but [Process.Kill]. *)
Lemma cancel_kills_only (child : option Z) :
  killsOf (cancel child) = [] /\ opensOf (cancel child) = []
  /\ signalsOf (cancel child)
     = match child with
       | Some pid => [(pid, SIGKILL)]
       | None => []
       end.
Proof. destruct child; repeat split. Qed.

Lemma saveMeta_opens (p : process) :
  opensOf (saveMeta w p) = [filepath_Join w (Dir p) (MetaFilename w)].
Proof.
  unfold saveMeta.
  destruct (OpenFile w (filepath_Join w (Dir p) (MetaFilename w)));
    reflexivity.
Qed.

(** [RunE] once the component is parsed and known. *)
Lemma RunE_supported (name arg0 : string) (rest : list string)
  (component : string) (version : Version) :
  ParseCompVersion w arg0 = (component, version) ->
  snd (isSupportedComponent w component) = true ->
  RunE sortSlice w name (arg0 :: rest)
  = let t0 := fst (isSupportedComponent w component) in
    let t1 := fst (launchComponent sortSlice w component version name rest) in
    let l := snd (launchComponent sortSlice w component version name rest) in
    let t2 := match mustSave l with
              | Some p => saveMeta w p
              | None => []
              end in
    match l with
    | NoProcess err => ((t0 ++ t1 ++ t2)%list, Some err)
    | Launched _ (Some err) => ((t0 ++ t1 ++ t2)%list, Some err)
    | Launched p None =>
        ((t0 ++ t1 ++ t2 ++ fst (waitOrSignal w component p)
          ++ cancel (running w p))%list,
         snd (waitOrSignal w component p))
    end.
Proof.
  intros HP HS. unfold RunE. rewrite HP.
  destruct (isSupportedComponent w component) as [t0 s]. simpl in HS.
  subst s. simpl.
  destruct (launchComponent sortSlice w component version name rest)
    as [t1 l]. simpl.
  destruct l as [err|p [err|]]; cbn [cancel]; rewrite ?app_nil_r;
    try reflexivity.
  destruct (waitOrSignal w component p). reflexivity.
Qed.

End Traces.




(** *** The process record *)

(** The result of [RunE] does not depend on what [OpenFile] and
    [Encode] answer. *)
Lemma RunE_result_ignores_persistence
  (sortSlice : (string -> string -> bool) -> list string -> list string)
  (w : World) (openFile : string -> option error)
  (encode : process -> option error) (name : string) (args : list string) :
  snd (RunE sortSlice (withPersist w openFile encode) name args)
  = snd (RunE sortSlice w name args).
Proof.
  unfold RunE. destruct args as [|arg0 rest]; [reflexivity|].
  change (ParseCompVersion (withPersist w openFile encode) arg0)
    with (ParseCompVersion w arg0).
  destruct (ParseCompVersion w arg0) as [component version].
  change (isSupportedComponent (withPersist w openFile encode) component)
    with (isSupportedComponent w component).
  destruct (isSupportedComponent w component) as [t0 [|]]; [|reflexivity].
  simpl negb. cbv iota.
  change (launchComponent sortSlice (withPersist w openFile encode)
            component version name rest)
    with (launchComponent sortSlice w component version name rest).
  destruct (launchComponent sortSlice w component version name rest)
    as [t1 [err|p [err|]]]; try reflexivity.
  change (waitOrSignal (withPersist w openFile encode) component p)
    with (waitOrSignal w component p).
  destruct (waitOrSignal w component p). reflexivity.
Qed.

(** The record of [launchComponent]: its fields are the arguments of
    [Start], and its pid is the one [Start] left, 0 if it left none. *)
Lemma launchComponent_record
  (sortSlice : (string -> string -> bool) -> list string -> list string)
  (w : World) (component : string) (version : Version) (name : string)
  (args : list string) (p : process) (err : option error) :
  snd (launchComponent sortSlice w component version name args)
  = Launched p err ->
  let st := Start w (Exec p) (Args p) (Environ w ++ Env p)%list (Dir p) in
  err = startErr st /\ Pid p = observedPid st.
Proof.
  unfold launchComponent.
  destruct (prepare sortSlice w component version name) as [t [e|[bin wd]]];
    simpl; [discriminate|].
  intros H. injection H as Hp He. subst p err.
  unfold observedPid.
  destruct (startedPid (Start w bin args _ wd)) eqn:E; simpl;
    rewrite E; auto.
Qed.

(** C3, as the code has it: whatever [OpenFile] and [Encode] answer,
    the result of [RunE] is the same; an error of the launch is returned
    as it is, and an error of the wait is returned annotated with the
    binary and the working directory.  When [Start] fails, the record
    holds the pid that [Start] left (0 if none).  The record is saved
    exactly when the launch had no error or the record holds a pid other
    than 0: after a failed start that left no pid, nothing is saved. *)
Theorem persistence_never_masks_the_launch_error
  (sortSlice : (string -> string -> bool) -> list string -> list string)
  (w : World) (name arg0 : string) (rest : list string)
  (component : string) (version : Version) (l : Launch)
  (HP : ParseCompVersion w arg0 = (component, version))
  (HS : snd (isSupportedComponent w component) = true)
  (HL : snd (launchComponent sortSlice w component version name rest) = l) :
  (forall openFile encode,
     snd (RunE sortSlice (withPersist w openFile encode) name (arg0 :: rest))
     = snd (RunE sortSlice w name (arg0 :: rest)))
  /\ (forall err, launchErr l = Some err ->
        snd (RunE sortSlice w name (arg0 :: rest)) = Some err)
  /\ (forall p waitErr, l = Launched p None -> Race w = ExitFirst waitErr ->
        snd (RunE sortSlice w name (arg0 :: rest))
        = Annotatef waitErr
            ("start `" ++ Exec p ++ "` (wd:" ++ Dir p ++ ") failed"))
  /\ (forall p err, l = Launched p (Some err) ->
        let st := Start w (Exec p) (Args p) (Environ w ++ Env p)%list (Dir p)
        in startErr st = Some err /\ Pid p = observedPid st)
  /\ opensOf (fst (RunE sortSlice w name (arg0 :: rest)))
     = match l with
       | NoProcess _ => []
       | Launched p None => [filepath_Join w (Dir p) (MetaFilename w)]
       | Launched p (Some _) =>
           if Pid p =? 0 then []
           else [filepath_Join w (Dir p) (MetaFilename w)]
       end.
Proof.
  pose proof (RunE_supported sortSlice w name arg0 rest component version
                HP HS) as R.
  cbv zeta in R. rewrite HL in R.
  pose proof (isSupportedComponent_quiet w component) as (_ & O0 & _).
  pose proof (launchComponent_quiet sortSlice w component version name rest)
    as (_ & O1 & _).
  repeat split.
  - intros. apply RunE_result_ignores_persistence.
  - intros err E. rewrite R.
    destruct l as [e|p [e|]]; simpl in E; simpl; congruence.
  - intros p waitErr -> HR. rewrite R. simpl.
    unfold waitOrSignal. rewrite HR. reflexivity.
  - destruct (launchComponent_record sortSlice w component version name
                rest p (Some err)) as [E _]; [congruence|]. now symmetry.
  - destruct (launchComponent_record sortSlice w component version name
                rest p (Some err)) as [_ E]; [congruence|]. exact E.
  - rewrite R. destruct l as [e|p [e|]]; simpl.
    + rewrite !opensOf_app, O0, O1. reflexivity.
    + rewrite !opensOf_app, O0, O1. simpl.
      destruct (Pid p =? 0); simpl; [reflexivity|apply saveMeta_opens].
    + destruct (cancel_kills_only (running w p)) as (_ & O4 & _).
      rewrite !opensOf_app, O0, O1, saveMeta_opens, O4. simpl.
      unfold waitOrSignal.
      destruct (Race w); [destruct (String.eqb component "tidb")|];
        reflexivity.
Qed.

Lemma persistence_never_masks_the_launch_error_witness :
  snd (RunE insertionSort halfStartedWorld "p1" ["tidb"])
  = Some (External "start: pipe setup failed")
  /\ opensOf (fst (RunE insertionSort halfStartedWorld "p1" ["tidb"]))
     = ["/home/tiup/data/p1/tiup_process_meta"].
Proof.
  epose proof (persistence_never_masks_the_launch_error insertionSort
                 halfStartedWorld "p1" "tidb" [] "tidb" "" _
                 eq_refl eq_refl eq_refl) as (_ & A & _ & _ & B).
  split.
  - apply A. reflexivity.
  - exact B.
Defined.

(** The claim C3 fails where it has the record saved regardless of the
    start failure: when [Start] fails and leaves no process, [RunE]
    returns the error of [Start] and opens no file. *)
Lemma failed_start_without_pid_saves_nothing :
  snd (launchComponent insertionSort notStartedWorld "tidb" "" "p1" [])
  = Launched
      {| Component := "tidb"; CreatedTime := "2020-04-27T15:06:40Z";
         Pid := 0; Exec := "/home/tiup/components/tidb/v5.1.0/tidb";
         Args := [];
         Env := ["TIUP_HOME=/home/tiup";
                 "TIUP_INSTANCE_DATA_DIR=/home/tiup/data/p1"];
         Dir := "/home/tiup/data/p1" |}
      (Some (External "fork/exec: no such file or directory"))
  /\ RunE insertionSort notStartedWorld "p1" ["tidb"]
     = ([EvInstalledVersions "tidb";
         EvBinaryPath "tidb" "v5.1.0";
         EvMkdirAll "/home/tiup/data/p1";
         EvStart "/home/tiup/components/tidb/v5.1.0/tidb" []
           ["PATH=/usr/bin"; "TIUP_HOME=/home/tiup";
            "TIUP_INSTANCE_DATA_DIR=/home/tiup/data/p1"]
           "/home/tiup/data/p1"],
        Some (External "fork/exec: no such file or directory"))
  /\ opensOf (fst (RunE insertionSort notStartedWorld "p1" ["tidb"])) = [].
Proof. vm_compute. repeat split. Qed.

(** *** base62Name *)

Lemma get_bytes (s : string) (n : nat) (c : ascii) :
  String.get n s = Some c -> In c (bytes s).
Proof.
  revert n. induction s as [|a s IH]; intros n H; [discriminate|].
  destruct n as [|n]; simpl in *.
  - injection H as ->. now left.
  - right. eapply IH; eassumption.
Qed.

(** Indexing [sets] with a number from 0 to 61 gives one of its bytes. *)
Lemma index_sets (i : Z) :
  0 <= i < 62 -> exists c, index sets i = Some c /\ In c (bytes sets).
Proof.
  intros H. unfold index.
  change (len sets) with 62.
  destruct (Z.ltb_spec i 0); [lia|].
  destruct (Z.geb_spec i 62); [lia|]. simpl orb. cbv iota.
  destruct (String.get (Z.to_nat i) sets) as [c|] eqn:E.
  - exists c. split; [reflexivity|]. eapply get_bytes; eassumption.
  - exfalso.
    assert (L : (Z.to_nat i < String.length sets)%nat).
    { change (String.length sets) with 62%nat. lia. }
    revert E L. generalize (Z.to_nat i) sets. clear.
    intros n s. revert n.
    induction s as [|a s IH]; intros n E L; simpl in *; [lia|].
    destruct n; [discriminate|]. apply (IH n E). lia.
Qed.

(** The conversion to [float64] keeps a positive number positive. *)
Lemma float64_of_int_nonneg (n : Z) : 0 < n -> 0 <= float64_of_int n.
Proof.
  intros H. unfold float64_of_int.
  rewrite Z.abs_eq by lia.
  destruct (Z.ltb_spec (Z.log2 n) 53) as [L|L]; [lia|].
  rewrite Z.sgn_pos by assumption.
  set (ulp := 2 ^ (Z.log2 n - 52)).
  assert (U : 0 < ulp) by (apply Z.pow_pos_nonneg; lia).
  assert (Q : 0 <= n / ulp) by (apply Z.div_pos; lia).
  destruct (2 * (n mod ulp) <? ulp); [nia|].
  destruct (2 * (n mod ulp) >? ulp); [nia|].
  destruct (Z.even (n / ulp)); nia.
Qed.

(** The digit a turn of the loop computes is an index into [sets]. *)
Lemma digit_in_range (num : Z) :
  0 < num ->
  0 <= math_Mod (float64_of_int num) (float64_of_int base) < 62.
Proof.
  intros H. change (float64_of_int base) with 62. unfold math_Mod.
  pose proof (float64_of_int_nonneg num H) as N.
  pose proof (Z.rem_bound_pos (float64_of_int num) 62 N ltac:(lia)). lia.
Qed.

(** The loop ends within [fuel] turns on a number below [2 ^ fuel], with
    digits from [sets] in front of what it was given. *)
Lemma base62Loop_returns (fuel : nat) :
  forall num b, 0 <= num < 2 ^ Z.of_nat fuel ->
  exists s, base62Loop fuel num b = Returned (s ++ b)%string
            /\ (0 < num -> s <> EmptyString)
            /\ forall c, In c (bytes s) -> In c (bytes sets).
Proof.
  induction fuel as [|fuel IH]; intros num b H.
  - simpl in H. assert (num = 0) by lia. subst.
    exists EmptyString. simpl. repeat split; [lia | contradiction].
  - destruct (Z.gtb_spec num 0) as [P|P].
    + cbn [base62Loop]. destruct (Z.gtb_spec num 0); [|lia].
      destruct (index_sets _ (digit_in_range num ltac:(lia)))
        as (c & E & Hc).
      rewrite E.
      assert (Q : 0 <= Z.quot num base < 2 ^ Z.of_nat fuel).
      { unfold base. rewrite Z.quot_div_nonneg by lia.
        rewrite Nat2Z.inj_succ, Z.pow_succ_r in H by lia.
        split; [apply Z.div_pos; lia|].
        apply Z.div_lt_upper_bound; lia. }
      destruct (IH (Z.quot num base) (String c b) Q) as (s & R & _ & Hs).
      exists (s ++ String c EmptyString)%string.
      rewrite R. repeat split.
      * f_equal. clear. induction s as [|a s IHs]; simpl; congruence.
      * intros _. destruct s; discriminate.
      * intros a Ha.
        assert (B : bytes (s ++ String c EmptyString)
                    = (bytes s ++ [c])%list).
        { clear. induction s as [|x s IHs]; simpl; congruence. }
        rewrite B in Ha. apply in_app_or in Ha.
        destruct Ha as [Ha|[<-|[]]]; auto.
    + assert (num = 0) by lia. subst.
      exists EmptyString. destruct fuel; simpl;
        repeat split; try lia; contradiction.
Qed.

(** [base62] returns on every number: the empty name for a number that
    is not positive. *)
Lemma base62_returns (num : Z) : exists s, base62 num = Returned s.
Proof.
  unfold base62.
  destruct (Z.ltb_spec 0 num) as [P|P].
  - destruct (base62Loop_returns (S (Z.to_nat (Z.log2 num))) num EmptyString)
      as (s & R & _).
    + rewrite Nat2Z.inj_succ, Z2Nat.id by apply Z.log2_nonneg.
      pose proof (Z.log2_spec num P). lia.
    + eexists. exact R.
  - exists EmptyString. simpl.
    destruct (Z.gtb_spec num 0); [lia|reflexivity].
Qed.

(** C10: for every positive [int64] timestamp the computation of the
    name ends, every index it takes into the alphabet is in bounds, and
    the name is a non-empty string of bytes of the 62-symbol alphabet;
    the conversion to [float64] may round the timestamp, and the bound
    on the index holds all the same. *)
Theorem base62_name_is_alphanumeric (num : Z)
  (Hpos : 0 < num) (Hint64 : num <= maxInt) :
  exists s, base62 num = Returned s
            /\ s <> EmptyString
            /\ forall c, In c (bytes s) -> In c (bytes sets).
Proof.
  unfold base62.
  destruct (base62Loop_returns (S (Z.to_nat (Z.log2 num))) num EmptyString)
    as (s & R & N & A).
  - rewrite Nat2Z.inj_succ, Z2Nat.id by apply Z.log2_nonneg.
    pose proof (Z.log2_spec num Hpos). lia.
  - exists s. rewrite R. repeat split; auto.
    f_equal. clear. induction s as [|a s IHs]; simpl; congruence.
Qed.

Lemma base62_name_is_alphanumeric_witness :
  exists s, base62 1588000000000000000 = Returned s
            /\ s <> EmptyString
            /\ forall c, In c (bytes s) -> In c (bytes sets).
Proof.
  apply (base62_name_is_alphanumeric 1588000000000000000).
  - reflexivity.
  - unfold maxInt. lia.
Defined.

(** The rounding is there: above [2 ^ 53] the digit computed from the
    [float64] is not always the remainder of the timestamp itself. *)
Example float64_rounds_large_timestamps :
  float64_of_int (2 ^ 53 + 1) = 2 ^ 53
  /\ float64_of_int 1588000000000000129 = 1588000000000000256
  /\ math_Mod (float64_of_int 1588000000000000129) (float64_of_int base) = 46
  /\ Z.rem 1588000000000000129 62 = 43
  /\ base62 1588000000000000129 = Returned "1tJ3WWLDAyk"
  /\ base62 maxInt = Returned "AzL8n0Y58i8".
Proof. vm_compute. repeat split. Qed.

End run_facts.

(** ** The playground commands *)

Module playground_facts.
Import GoString GoLib playground playground_vocabulary.

(** *** buildCommands *)

Lemma appendTimes_repeat (n : nat) (c : Command) (cmds : list Command) :
  appendTimes n c cmds = (cmds ++ repeat c n)%list.
Proof.
  revert cmds. induction n as [|n IH]; intros cmds; simpl.
  - now rewrite app_nil_r.
  - rewrite IH, <- app_assoc. reflexivity.
Qed.

Lemma fold_appendTimes (tp : CommandType) (ks : list (string * Config))
  (cmds : list Command) :
  fold_left
    (fun cmds (cmd : string * Config) =>
       appendTimes (Z.to_nat (Num (snd cmd)))
         {| CommandType_ := tp; PID := 0; ComponentID := fst cmd;
            Config_ := snd cmd |} cmds)
    ks cmds
  = (cmds ++
     flat_map (fun k => repeat {| CommandType_ := tp; PID := 0;
                                  ComponentID := fst k; Config_ := snd k |}
                               (Z.to_nat (Num (snd k)))) ks)%list.
Proof.
  revert cmds. induction ks as [|k ks IH]; intros cmds; simpl.
  - now rewrite app_nil_r.
  - rewrite IH, appendTimes_repeat, <- app_assoc. reflexivity.
Qed.

Lemma buildCommands_flat_map (tp : CommandType) (opt : bootOptions) :
  buildCommands tp opt
  = flat_map
      (fun k => repeat {| CommandType_ := tp; PID := 0; ComponentID := fst k;
                          Config_ := snd k |}
                       (Z.to_nat (Num (snd k))))
      (kinds opt).
Proof.
  unfold buildCommands. now rewrite fold_appendTimes.
Qed.

(** C6: [buildCommands] goes through the kinds pd, tikv, pump, tiflash,
    tidb, ticdc, drainer in this order and gives, for a kind with count
    [N], [N] equal commands that carry the name of the kind and its
    whole configuration, none when [N] is not positive; with one pd and
    two tidb and nothing else it gives three commands: pd, tidb, tidb. *)
Theorem buildCommands_by_kind_then_count (tp : CommandType)
  (opt : bootOptions) :
  buildCommands tp opt
  = flat_map
      (fun k => repeat {| CommandType_ := tp; PID := 0; ComponentID := fst k;
                          Config_ := snd k |}
                       (Z.to_nat (Num (snd k))))
      [ ("pd", pd opt); ("tikv", tikv opt); ("pump", pump opt);
        ("tiflash", tiflash opt); ("tidb", tidb opt); ("ticdc", ticdc opt);
        ("drainer", drainer opt) ]
  /\ (Num (pd opt) = 1 -> Num (tikv opt) = 0 -> Num (pump opt) = 0 ->
      Num (tiflash opt) = 0 -> Num (tidb opt) = 2 -> Num (ticdc opt) = 0 ->
      Num (drainer opt) = 0 ->
      buildCommands tp opt
      = [ {| CommandType_ := tp; PID := 0; ComponentID := "pd";
             Config_ := pd opt |};
          {| CommandType_ := tp; PID := 0; ComponentID := "tidb";
             Config_ := tidb opt |};
          {| CommandType_ := tp; PID := 0; ComponentID := "tidb";
             Config_ := tidb opt |} ]).
Proof.
  pose proof (buildCommands_flat_map tp opt) as E.
  split; [exact E|].
  intros H1 H2 H3 H4 H5 H6 H7. rewrite E. unfold kinds. simpl.
  rewrite H1, H2, H3, H4, H5, H6, H7. reflexivity.
Qed.

Lemma buildCommands_by_kind_then_count_witness :
  map ComponentID (buildCommands ScaleOutCommandType samples.onePdTwoTidb)
  = ["pd"; "tidb"; "tidb"]
  /\ map Config_ (buildCommands ScaleOutCommandType samples.onePdTwoTidb)
     = [pd samples.onePdTwoTidb; tidb samples.onePdTwoTidb;
        tidb samples.onePdTwoTidb].
Proof.
  destruct (buildCommands_by_kind_then_count ScaleOutCommandType
              samples.onePdTwoTidb) as [_ H].
  rewrite H by reflexivity. split; reflexivity.
Defined.

(** *** The dispatcher *)

(** [sendCommandsAndPrintResult] adds events to those it is given. *)
Lemma send_dispatches (net : Net) (addr : string) (cmds : list Command) :
  forall before, exists new,
    snd (sendCommandsAndPrintResult net cmds addr before)
    = (before ++ new)%list
    /\ Dispatch net addr before cmds new
         (fst (sendCommandsAndPrintResult net cmds addr before)).
Proof.
  induction cmds as [|cmd rest IH]; intros before.
  - exists []. simpl. rewrite app_nil_r. split; [reflexivity|constructor].
  - cbn [sendCommandsAndPrintResult]. unfold requestCommand.
    fold (request addr cmd).
    destruct (Post net before (request addr cmd)) as [err|resp] eqn:EP.
    + exists [Posted (request addr cmd)]. simpl.
      split; [reflexivity|]. now constructor.
    + destruct (readErr resp) as [err|] eqn:ER.
      * exists [Posted (request addr cmd); Copied (data resp)]. simpl.
        rewrite <- app_assoc. split; [reflexivity|].
        now apply dispatch_copy_fails.
      * replace ((before ++ [Posted (request addr cmd)])
                 ++ [Copied (data resp)])%list
          with (before ++ [Posted (request addr cmd); Copied (data resp)])%list
          by (rewrite <- app_assoc; reflexivity).
        destruct (IH (before ++ [Posted (request addr cmd);
                                 Copied (data resp)])%list)
          as (new & E & D).
        exists (Posted (request addr cmd) :: Copied (data resp) :: new).
        rewrite E. split.
        -- rewrite <- !app_assoc. reflexivity.
        -- apply dispatch_next with (resp := resp); auto.
Qed.

(** The requests of a dispatch are those of the first [k] commands, in
    order; [k] counts all the commands when there is no error, and at
    least one when there is one. *)
Lemma Dispatch_prefix (net : Net) (addr : string) (before : list IOEvent)
  (cmds : list Command) (new : list IOEvent) (r : option error) :
  Dispatch net addr before cmds new r ->
  exists k, (k <= List.length cmds)%nat
    /\ requestsOf new = map (request addr) (firstn k cmds)
    /\ (r = None -> k = List.length cmds)
    /\ (r <> None -> (1 <= k)%nat).
Proof.
  induction 1 as [before|before cmd rest err HP
                 |before cmd rest resp err HP HR
                 |before cmd rest resp new r HP HR D IH].
  - exists 0%nat. simpl. repeat split; auto; congruence.
  - exists 1%nat. simpl. repeat split; auto; try lia; discriminate.
  - exists 1%nat. simpl. repeat split; auto; try lia; discriminate.
  - destruct IH as (k & L & E & N & S).
    exists (Datatypes.S k). simpl. rewrite E.
    repeat split; auto; try lia; intros Hr; now rewrite (N Hr).
Qed.

Lemma scaleInCommands_map (pids : list Z) :
  scaleInCommands pids = map scaleInCommand pids.
Proof.
  unfold scaleInCommands.
  assert (G : forall acc,
    fold_left (fun cmds pid => (cmds ++ [scaleInCommand pid])%list) pids acc
    = (acc ++ map scaleInCommand pids)%list).
  { induction pids as [|p pids IH]; intros acc; simpl.
    - now rewrite app_nil_r.
    - rewrite IH, <- app_assoc. reflexivity. }
  apply (G []).
Qed.

(** C7: the dispatcher sends the commands one after the other, one
    round trip each, and copies the body of each response whole before
    it sends the next command; the first request or copy that fails
    ends it with that error, the commands after it not being sent.  For
    scale-in of 111 and 222 the commands are those for pid 111 and pid
    222 in this order, and when the request for 111 fails nothing is
    sent for 222. *)
Theorem dispatch_is_sequential_and_fail_fast (net : Net) (addr : string)
  (cmds : list Command) (before : list IOEvent) :
  (exists new k,
     snd (sendCommandsAndPrintResult net cmds addr before)
     = (before ++ new)%list
     /\ Dispatch net addr before cmds new
          (fst (sendCommandsAndPrintResult net cmds addr before))
     /\ (k <= List.length cmds)%nat
     /\ requestsOf new = map (request addr) (firstn k cmds)
     /\ (fst (sendCommandsAndPrintResult net cmds addr before) = None ->
         k = List.length cmds)
     /\ (fst (sendCommandsAndPrintResult net cmds addr before) <> None ->
         (1 <= k)%nat))
  /\ scaleInCommands [111; 222] = [scaleInCommand 111; scaleInCommand 222]
  /\ (forall port err,
        targetTag net = inr port ->
        Post net [] (request (loopbackAddr port) (scaleInCommand 111))
        = inl err ->
        scaleIn net [111; 222] []
        = (Some (AddStack (AddStack err)),
           [Posted (request (loopbackAddr port) (scaleInCommand 111))])).
Proof.
  repeat split.
  - destruct (send_dispatches net addr cmds before) as (new & E & D).
    destruct (Dispatch_prefix _ _ _ _ _ _ D) as (k & L & R & N & S).
    exists new, k. auto 10.
  - intros port err HT HP. unfold scaleIn. rewrite HT.
    rewrite scaleInCommands_map. simpl map.
    cbn [sendCommandsAndPrintResult]. unfold requestCommand.
    fold (loopbackAddr port).
    fold (request (loopbackAddr port) (scaleInCommand 111)).
    rewrite HP. reflexivity.
Qed.

Lemma dispatch_is_sequential_and_fail_fast_witness :
  scaleIn samples.firstRequestFails [111; 222] []
  = (Some (AddStack (AddStack (External "dial tcp: connection refused"))),
     [Posted (request "127.0.0.1:9527" (scaleInCommand 111))]).
Proof.
  destruct (dispatch_is_sequential_and_fail_fast samples.firstRequestFails
              "127.0.0.1:9527" [] []) as (_ & _ & H).
  apply (H 9527 (External "dial tcp: connection refused"));
    reflexivity.
Defined.

(** With every round trip working, request and copy alternate. *)
Example scale_in_two_round_trips :
  scaleIn (samples.answering "ok") [111; 222] []
  = (None,
     [Posted (request "127.0.0.1:9527" (scaleInCommand 111)); Copied "ok";
      Posted (request "127.0.0.1:9527" (scaleInCommand 222)); Copied "ok"]).
Proof. reflexivity. Qed.

(** *** The fields of a command *)

Lemma pidCommands_map (tp : CommandType) (args : list string) :
  pidCommands tp args
  = map (fun arg => {| CommandType_ := tp; PID := fst (Atoi arg);
                       ComponentID := ""; Config_ := zeroConfig |}) args.
Proof.
  unfold pidCommands.
  assert (G : forall acc,
    fold_left
      (fun cmds arg =>
         let '(pid, _) := Atoi arg in
         (cmds ++ [ {| CommandType_ := tp; PID := pid; ComponentID := "";
                       Config_ := zeroConfig |} ])%list) args acc
    = (acc ++ map (fun arg => {| CommandType_ := tp; PID := fst (Atoi arg);
                                 ComponentID := "";
                                 Config_ := zeroConfig |}) args)%list).
  { induction args as [|a args IH]; intros acc; simpl.
    - now rewrite app_nil_r.
    - destruct (Atoi a) as [pid e]. rewrite IH, <- app_assoc. reflexivity. }
  apply (G []).
Qed.

(** What an operation posts are the commands it builds, or the first of
    them. *)
Lemma runOp_posts_commandsOf (net : Net) (op : Operation)
  (before : list IOEvent) :
  exists new k,
    snd (runOp net op before) = (before ++ new)%list
    /\ map body (requestsOf new) = firstn k (commandsOf op).
Proof.
  assert (G : forall cmds addr, exists new k,
    snd (sendCommandsAndPrintResult net cmds addr before)
    = (before ++ new)%list
    /\ map body (requestsOf new) = firstn k cmds).
  { intros cmds addr.
    destruct (send_dispatches net addr cmds before) as (new & E & D).
    destruct (Dispatch_prefix _ _ _ _ _ _ D) as (k & _ & R & _).
    exists new, k. split; [assumption|].
    rewrite R, map_map. simpl. apply map_id. }
  assert (Z0 : exists new k,
    before = (before ++ new)%list
    /\ map body (requestsOf new) = firstn k (commandsOf op)).
  { exists [], 0%nat. now rewrite app_nil_r. }
  destruct op as [opt|pids| |args|args]; simpl.
  - unfold scaleOut. destruct (targetTag net); [exact Z0|].
    destruct (Z.of_nat (List.length (buildCommands ScaleOutCommandType opt))
              =? 0); [exact Z0|].
    destruct (G (buildCommands ScaleOutCommandType opt)
                ("127.0.0.1:" ++ Itoa z)%string) as (new & k & E & R).
    destruct (sendCommandsAndPrintResult net
                (buildCommands ScaleOutCommandType opt)
                ("127.0.0.1:" ++ Itoa z)%string before) as [err t'].
    exists new, k. auto.
  - unfold scaleIn. destruct (targetTag net); [exact Z0|]. apply G.
  - unfold display. destruct (targetTag net); [exact Z0|]. apply G.
  - unfold restart. destruct (targetTag net); [exact Z0|]. apply G.
  - unfold partition. destruct (targetTag net); [exact Z0|]. apply G.
Qed.

(** C9, as the code has it: [Command] is one flat struct, and every
    command the five operations build leaves the fields its type does
    not use at their zero values: no kind and no configuration for
    scale-in, restart and partition, no pid for scale-out, and nothing at
    all for display, which builds a single command.  What an operation
    posts are these commands. *)
Theorem built_commands_hold_only_relevant_fields (op : Operation) :
  Forall onlyRelevant (commandsOf op)
  /\ commandsOf OpDisplay
     = [ {| CommandType_ := DisplayCommandType; PID := 0; ComponentID := "";
            Config_ := zeroConfig |} ]
  /\ forall net before, exists new k,
       snd (runOp net op before) = (before ++ new)%list
       /\ map body (requestsOf new) = firstn k (commandsOf op).
Proof.
  split; [|split; [reflexivity | intros; apply runOp_posts_commandsOf]].
  destruct op as [opt|pids| |args|args]; simpl.
  - rewrite buildCommands_flat_map. unfold kinds.
    apply Forall_flat_map. repeat constructor;
      apply Forall_forall; intros c Hc; apply repeat_spec in Hc;
      subst c; reflexivity.
  - rewrite scaleInCommands_map. apply Forall_forall. intros c Hc.
    apply in_map_iff in Hc. destruct Hc as (pid & <- & _).
    split; reflexivity.
  - repeat constructor.
  - rewrite pidCommands_map. apply Forall_forall. intros c Hc.
    apply in_map_iff in Hc. destruct Hc as (arg & <- & _).
    split; reflexivity.
  - rewrite pidCommands_map. apply Forall_forall. intros c Hc.
    apply in_map_iff in Hc. destruct Hc as (arg & <- & _).
    split; reflexivity.
Qed.

(** The claim C9 fails where it has the representation rule out the
    other fields: a display command with a pid, a kind and a
    configuration is a value of [Command], and [buildCommands] makes one
    when it is given the display type. *)
Lemma command_struct_admits_irrelevant_fields :
  ~ (forall c : Command, onlyRelevant c)
  /\ ~ Forall onlyRelevant
         (buildCommands DisplayCommandType samples.onePdTwoTidb).
Proof.
  split.
  - intros H.
    specialize (H {| CommandType_ := DisplayCommandType; PID := 111;
                     ComponentID := "tidb";
                     Config_ := tidb samples.onePdTwoTidb |}).
    vm_compute in H. destruct H as [H _]. discriminate.
  - intros H. apply Forall_inv in H. vm_compute in H.
    destruct H as [_ [H _]]. discriminate.
Qed.

(** *** The address *)

Lemma runOp_address (net : Net) (op : Operation) (before : list IOEvent)
  (port : Z) :
  targetTag net = inr port ->
  exists new k,
    snd (runOp net op before) = (before ++ new)%list
    /\ requestsOf new
       = map (request (addressOf op port)) (firstn k (commandsOf op)).
Proof.
  intros HT.
  assert (G : forall cmds addr, exists new k,
    snd (sendCommandsAndPrintResult net cmds addr before)
    = (before ++ new)%list
    /\ requestsOf new = map (request addr) (firstn k cmds)).
  { intros cmds addr.
    destruct (send_dispatches net addr cmds before) as (new & E & D).
    destruct (Dispatch_prefix _ _ _ _ _ _ D) as (k & _ & R & _).
    exists new, k. auto. }
  destruct op as [opt|pids| |args|args]; simpl.
  - unfold scaleOut. rewrite HT.
    destruct (Z.of_nat (List.length (buildCommands ScaleOutCommandType opt))
              =? 0).
    + exists [], 0%nat. now rewrite app_nil_r.
    + destruct (G (buildCommands ScaleOutCommandType opt)
                  ("127.0.0.1:" ++ Itoa port)%string) as (new & k & E & R).
      destruct (sendCommandsAndPrintResult net
                  (buildCommands ScaleOutCommandType opt)
                  ("127.0.0.1:" ++ Itoa port)%string before) as [err t'].
      exists new, k. auto.
  - unfold scaleIn. rewrite HT. apply G.
  - unfold display. rewrite HT. apply G.
  - unfold restart. rewrite HT. apply G.
  - unfold partition. rewrite HT. apply G.
Qed.

(** C1 does not hold of [partition] and [restart]: with the playground
    on port 9527, [scaleIn], [scaleOut] and [display] post to
    [http://127.0.0.1:9527/command], while [partition] and [restart]
    build the address without the colon and post to
    [http://127.0.0.19527/command]. *)
Theorem partition_and_restart_address_lacks_colon :
  map url (requestsOf (snd (runOp (samples.answering "ok")
                              (OpPartition ["111"]) [])))
  = ["http://127.0.0.19527/command"]
  /\ map url (requestsOf (snd (runOp (samples.answering "ok")
                                 (OpRestart ["111"]) [])))
     = ["http://127.0.0.19527/command"]
  /\ map url (requestsOf (snd (runOp (samples.answering "ok")
                                 (OpScaleIn [111]) [])))
     = ["http://127.0.0.1:9527/command"]
  /\ map url (requestsOf (snd (runOp (samples.answering "ok")
                                 OpDisplay [])))
     = ["http://127.0.0.1:9527/command"]
  /\ map url (requestsOf (snd (runOp (samples.answering "ok")
                                 (OpScaleOut samples.onePdTwoTidb) [])))
     = ["http://127.0.0.1:9527/command"; "http://127.0.0.1:9527/command";
        "http://127.0.0.1:9527/command"]
  /\ loopbackAddr 9527 = "127.0.0.1:9527"
  /\ addressOf (OpPartition ["111"]) 9527 <> loopbackAddr 9527.
Proof. vm_compute. repeat split. discriminate. Qed.

End playground_facts.

(** ** The run command: launch, record and resolution *)

Module run_coverage.
Import GoString GoLib run ordering sorting sort_facts run_vocabulary.
Import run_facts coverage_vocabulary coverage_samples.

Lemma startsOf_app (t1 t2 : list Event) :
  startsOf (t1 ++ t2) = (startsOf t1 ++ startsOf t2)%list.
Proof.
  induction t1 as [|e t1 IH]; [reflexivity|].
  destruct e; simpl; now rewrite IH.
Qed.

Lemma mkdirsOf_app (t1 t2 : list Event) :
  mkdirsOf (t1 ++ t2) = (mkdirsOf t1 ++ mkdirsOf t2)%list.
Proof.
  induction t1 as [|e t1 IH]; [reflexivity|].
  destruct e; simpl; now rewrite IH.
Qed.

Lemma encodesOf_app (t1 t2 : list Event) :
  encodesOf (t1 ++ t2) = (encodesOf t1 ++ encodesOf t2)%list.
Proof.
  induction t1 as [|e t1 IH]; [reflexivity|].
  destruct e; simpl; now rewrite IH.
Qed.

Lemma downloadsOf_app (t1 t2 : list Event) :
  downloadsOf (t1 ++ t2) = (downloadsOf t1 ++ downloadsOf t2)%list.
Proof.
  induction t1 as [|e t1 IH]; [reflexivity|].
  destruct e; simpl; now rewrite IH.
Qed.

Lemma binaryPathsOf_app (t1 t2 : list Event) :
  binaryPathsOf (t1 ++ t2) = (binaryPathsOf t1 ++ binaryPathsOf t2)%list.
Proof.
  induction t1 as [|e t1 IH]; [reflexivity|].
  destruct e; simpl; now rewrite IH.
Qed.

(** *** downloadIfMissing *)

Lemma downloadIfMissing_cases
  (sortSlice : (string -> string -> bool) -> list string -> list string)
  (w : World) (component : string) (version : Version) :
  (exists e, profile_InstalledVersions w component = inl e
             /\ downloadIfMissing sortSlice w component version
                = ([EvInstalledVersions component], inl e))
  \/ (exists versions,
        profile_InstalledVersions w component = inr versions
        /\ Fetch w component
             (fst (resolve sortSlice versions version))
             (snd (resolve sortSlice versions version))
             (fst (downloadIfMissing sortSlice w component version))
             (snd (downloadIfMissing sortSlice w component version))).
Proof.
  unfold downloadIfMissing, bind, call.
  destruct (profile_InstalledVersions w component) as [e|versions] eqn:HI.
  - left. exists e. auto.
  - right. exists versions. split; [reflexivity|].
    destruct (resolve sortSlice versions version) as [v need].
    destruct need; cbn [fst snd].
    + destruct (repository_ComponentVersions w component) as [e|m] eqn:HC.
      * unfold download, bind, traced, call. rewrite HC. simpl.
        now apply fetch_no_catalog.
      * destruct (profile_SaveVersions w component m) as [e|] eqn:HSv.
        -- unfold download, bind, traced, call, callErr. rewrite HC, HSv.
           simpl. now apply fetch_not_saved with (m := m).
        -- rewrite (download_events w component v m HC HSv). simpl.
           match goal with
           | |- context [repository_DownloadComponent ?a ?b ?c] =>
               destruct (repository_DownloadComponent a b c) as [e|] eqn:HD
           end; simpl.
           ++ now apply fetch_download_fails.
           ++ destruct (profile_BinaryPath w component
                          (if IsEmpty v then LatestVersion m else v)) eqn:HB;
                simpl; rewrite <- HB; now apply fetch_downloaded.
    + simpl. destruct (profile_BinaryPath w component v) eqn:HB;
        simpl; rewrite <- HB; now apply fetch_installed.
Qed.

(** X1: [downloadIfMissing] never downloads twice, and never downloads
    without the catalog fetched and saved first: a download call, if
    there is one, is the fourth call, after the installed versions were
    read and the catalog was fetched and saved, and it asks for an
    artifact of this component. *)
Theorem at_most_one_download_after_the_catalog
  (sortSlice : (string -> string -> bool) -> list string -> list string)
  (w : World) (component : string) (version : Version) :
  (List.length
     (downloadsOf (fst (downloadIfMissing sortSlice w component version)))
   <= 1)%nat
  /\ forall spec,
       In spec
         (downloadsOf (fst (downloadIfMissing sortSlice w component version)))
       ->
       exists m ver rest,
         repository_ComponentVersions w component = inr m
         /\ profile_SaveVersions w component m = None
         /\ spec = (component ++ ":" ++ ver)%string
         /\ fst (downloadIfMissing sortSlice w component version)
            = ([EvInstalledVersions component;
                EvComponentVersions component;
                EvSaveVersions component m;
                EvDownloadComponent (profile_ComponentsDir w) spec]
               ++ rest)%list.
Proof.
  destruct (downloadIfMissing_cases sortSlice w component version)
    as [(e & _ & E)|(versions & _ & F)].
  - rewrite E. simpl. split; [lia|contradiction].
  - inversion F as [D T R|e D HC T R|m e D HC HS T R|m e D HC HS HD T R
                   |m D HC HS HD T R]; simpl;
      (split; [lia|]); try contradiction.
    + intros spec [<-|[]]. exists m. eexists. exists []. auto.
    + intros spec [<-|[]]. exists m. eexists. eexists. repeat split; auto.
Qed.

(** X2: A version asked for by name is never replaced by another one: every
    download is for [component:version], every binary path looked up is
    that of this version, and a path returned is the one the profile
    gives for it. *)
Theorem requested_version_is_never_replaced
  (sortSlice : (string -> string -> bool) -> list string -> list string)
  (w : World) (component : string) (version : Version)
  (Hv : version <> EmptyString) :
  (forall spec,
     In spec
       (downloadsOf (fst (downloadIfMissing sortSlice w component version)))
     -> spec = (component ++ ":" ++ version)%string)
  /\ (forall c v,
        In (c, v)
          (binaryPathsOf
             (fst (downloadIfMissing sortSlice w component version)))
        -> c = component /\ v = version)
  /\ (forall path,
        snd (downloadIfMissing sortSlice w component version) = inr path ->
        profile_BinaryPath w component version = inr path).
Proof.
  destruct (downloadIfMissing_cases sortSlice w component version)
    as [(e & _ & E)|(versions & _ & F)].
  - rewrite E. simpl. repeat split; try contradiction. discriminate.
  - rewrite (resolve_requested sortSlice versions version Hv) in F.
    cbn [fst snd] in F.
    assert (Ev : forall m, (if IsEmpty version then LatestVersion m
                            else version) = version).
    { intros m. unfold IsEmpty. now rewrite (isEmpty_false _ Hv). }
    inversion F as [D T R|e D HC T R|m e D HC HS T R|m e D HC HS HD T R
                   |m D HC HS HD T R]; simpl;
      rewrite ?Ev; repeat split; try contradiction; try discriminate;
      try (intros spec [<-|[]]; reflexivity);
      try (intros c v [H|[]]; injection H as <- <-; auto);
      try (intros path H; exact H);
      try match goal with
          | H : (_, _) = (_, _) \/ False |- _ =>
              destruct H as [H|[]]; injection H as <- <-; reflexivity
          end.
Qed.

Lemma requested_version_is_never_replaced_witness :
  (forall spec,
     In spec
       (downloadsOf (fst (downloadIfMissing insertionSort installedWorld
                            "tidb" "v3.0.0")))
     -> spec = "tidb:v3.0.0")
  /\ (forall c v,
        In (c, v)
          (binaryPathsOf (fst (downloadIfMissing insertionSort installedWorld
                                 "tidb" "v3.0.0")))
        -> c = "tidb" /\ v = "v3.0.0")
  /\ (forall path,
        snd (downloadIfMissing insertionSort installedWorld "tidb" "v3.0.0")
        = inr path ->
        profile_BinaryPath installedWorld "tidb" "v3.0.0" = inr path).
Proof.
  apply (requested_version_is_never_replaced insertionSort installedWorld
           "tidb" "v3.0.0").
  discriminate.
Defined.

(** *** resolve *)

Lemma resolve_cases
  (sortSlice : (string -> string -> bool) -> list string -> list string)
  (versions : list string) (version : Version) :
  (version <> EmptyString
   /\ resolve sortSlice versions version
      = (version, negb (isInstalled version versions)))
  \/ (version = EmptyString /\ versions = []
      /\ resolve sortSlice versions version = (EmptyString, true))
  \/ (version = EmptyString /\ versions <> []
      /\ let latest :=
           List.last (sortSlice versionLess versions) EmptyString in
         resolve sortSlice versions version
         = (latest,
            if isEmpty latest then true
            else negb (isInstalled latest (sortSlice versionLess versions)))).
Proof.
  destruct version as [|a version].
  - right. destruct versions as [|x versions].
    + left. auto.
    + right. repeat split; [discriminate|].
      unfold resolve. simpl IsEmpty.
      change (true && (0 <? Z.of_nat (List.length (x :: versions))))
        with true. cbv iota zeta.
      unfold IsEmpty.
      destruct (isEmpty (List.last (sortSlice versionLess (x :: versions))
                           EmptyString)); reflexivity.
  - left. split; [discriminate|]. apply resolve_requested. discriminate.
Qed.

Lemma resolve_sound
  (sortSlice : (string -> string -> bool) -> list string -> list string)
  (versions : list string) (version v : Version) (need : bool) :
  Sorts sortSlice ->
  resolve sortSlice versions version = (v, need) ->
  (need = false -> In v versions /\ v <> EmptyString)
  /\ (need = true ->
      v = version /\ (v = EmptyString \/ ~ In v versions)).
Proof.
  intros HS HR.
  destruct (HS versionLess versions versionLess_asym
              versionLess_notless_trans) as [P _].
  destruct (resolve_cases sortSlice versions version)
    as [(Hv & R)|[(Hv & Hn & R)|(Hv & Hn & R)]];
    rewrite R in HR; injection HR as <- <-.
  - split; intros H.
    + apply negb_false_iff in H. apply isInstalled_In in H. auto.
    + split; [reflexivity|]. right. intros Hin.
      apply isInstalled_In in Hin. rewrite Hin in H. discriminate.
  - split; intros H; [discriminate|]. subst. auto.
  - set (sorted := sortSlice versionLess versions) in *.
    assert (Hs : sorted <> []).
    { intros E. rewrite E in P. apply Permutation_sym in P.
      apply Permutation_nil in P. contradiction. }
    pose proof (last_In sorted EmptyString Hs) as Hin.
    destruct (List.last sorted EmptyString) as [|a latest] eqn:EL.
    + simpl. split; intros H; [discriminate|]. subst. auto.
    + cbn [isEmpty]. rewrite (proj2 (isInstalled_In _ _) Hin). simpl.
      split; intros H; [|discriminate]. split; [|discriminate].
      eapply Permutation_in; [apply Permutation_sym; exact P|exact Hin].
Qed.

(** X3: [resolve] says that no download is needed only for a version that
    is installed, and never for the empty version; when it says that a
    download is needed, the version is the one asked for, and it is empty
    or not installed. *)
Theorem no_download_only_for_an_installed_version
  (sortSlice : (string -> string -> bool) -> list string -> list string)
  (versions : list string) (version v : Version) (need : bool)
  (HS : Sorts sortSlice)
  (HR : resolve sortSlice versions version = (v, need)) :
  (need = false -> In v versions /\ v <> EmptyString)
  /\ (need = true ->
      v = version /\ (v = EmptyString \/ ~ In v versions)).
Proof. exact (resolve_sound sortSlice versions version v need HS HR). Qed.

Lemma no_download_only_for_an_installed_version_witness :
  (false = false ->
   In "v5.1.0" ["v5.1.0"; "v4.9.0"] /\ "v5.1.0" <> EmptyString)
  /\ (false = true ->
      "v5.1.0" = EmptyString
      /\ ("v5.1.0" = EmptyString \/ ~ In "v5.1.0" ["v5.1.0"; "v4.9.0"])).
Proof.
  apply (no_download_only_for_an_installed_version insertionSort
           ["v5.1.0"; "v4.9.0"] EmptyString "v5.1.0" false
           insertionSort_sorts).
  reflexivity.
Defined.

(** X4: Running a component without a version and running it with the
    version this resolves to, given by name, make the same calls and
    return the same result. *)
Theorem latest_by_default_is_latest_by_name
  (sortSlice : (string -> string -> bool) -> list string -> list string)
  (w : World) (component : string) (versions : list string) (v : Version)
  (HS : Sorts sortSlice)
  (HI : profile_InstalledVersions w component = inr versions)
  (HR : resolve sortSlice versions EmptyString = (v, false)) :
  resolve sortSlice versions v = (v, false)
  /\ downloadIfMissing sortSlice w component v
     = downloadIfMissing sortSlice w component EmptyString.
Proof.
  destruct (resolve_sound sortSlice versions EmptyString v false HS HR)
    as [A _].
  destruct (A eq_refl) as [Hin Hne].
  assert (R : resolve sortSlice versions v = (v, false)).
  { rewrite (resolve_requested _ _ _ Hne).
    now rewrite (proj2 (isInstalled_In _ _) Hin). }
  split; [exact R|].
  unfold downloadIfMissing, bind, call. rewrite HI, R, HR. reflexivity.
Qed.

Lemma latest_by_default_is_latest_by_name_witness :
  resolve insertionSort ["v4.9.0"; "v5.0.0"; "v5.1.0"] "v5.1.0"
  = ("v5.1.0", false)
  /\ downloadIfMissing insertionSort (samples.signalled SIGTERM)
       "tidb" "v5.1.0"
     = downloadIfMissing insertionSort (samples.signalled SIGTERM)
         "tidb" EmptyString.
Proof.
  apply (latest_by_default_is_latest_by_name insertionSort
           (samples.signalled SIGTERM) "tidb"
           ["v4.9.0"; "v5.0.0"; "v5.1.0"] "v5.1.0" insertionSort_sorts);
    reflexivity.
Defined.

(** X5: The [less] function given to [sort.Slice] is a strict weak order,
    as [sort.Slice] asks: nothing is below itself, two versions are not
    below each other, "below" and "not below" are transitive; two
    versions are level when neither is below the other, which is when
    [semver.Compare] gives 0. *)
Theorem version_less_is_a_strict_weak_order :
  (forall a, versionLess a a = false)
  /\ (forall a b, versionLess a b = true -> versionLess b a = false)
  /\ (forall a b c, versionLess a b = true -> versionLess b c = true ->
                    versionLess a c = true)
  /\ (forall a b c, versionLess a b = false -> versionLess b c = false ->
                    versionLess a c = false)
  /\ (forall a b, versionLess a b = false /\ versionLess b a = false
                  <-> semver.Compare a b = 0).
Proof.
  repeat split.
  - intros a. unfold versionLess. now rewrite Compare_refl.
  - apply versionLess_asym.
  - intros a b c H1 H2.
    destruct (versionLess a c) eqn:E; [reflexivity|].
    pose proof (versionLess_asym _ _ H1) as H1'.
    pose proof (versionLess_notless_trans b a c H1' E). congruence.
  - apply versionLess_notless_trans.
  - intros [H1 H2]. unfold versionLess in *.
    rewrite (semver_order.Compare_opp a b) in H2.
    apply Z.ltb_ge in H1, H2. lia.
  - unfold versionLess.
    match goal with H : _ = 0 |- _ => now rewrite H end.
  - unfold versionLess.
    match goal with
    | H : _ = 0 |- _ =>
        now rewrite (semver_order.Compare_opp a b), H
    end.
Qed.

(** *** launchComponent *)

Lemma prepare_cases
  (sortSlice : (string -> string -> bool) -> list string -> list string)
  (w : World) (component : string) (version : Version) (name : string) :
  prepare sortSlice w component version name
  = match snd (downloadIfMissing sortSlice w component version) with
    | inl e => (fst (downloadIfMissing sortSlice w component version), inl e)
    | inr bin =>
        ((fst (downloadIfMissing sortSlice w component version)
          ++ [EvMkdirAll (workingDir w name)])%list,
         match MkdirAll w (workingDir w name) with
         | Some e => inl e
         | None => inr (bin, workingDir w name)
         end)
    end.
Proof.
  unfold prepare, bind, callErr, ret. fold (workingDir w name).
  destruct (downloadIfMissing sortSlice w component version) as [t [e|bin]];
    [reflexivity|].
  cbn [fst snd].
  destruct (MkdirAll w (workingDir w name)); simpl;
    rewrite ?app_nil_r; reflexivity.
Qed.

Lemma launchComponent_cases
  (sortSlice : (string -> string -> bool) -> list string -> list string)
  (w : World) (component : string) (version : Version) (name : string)
  (args : list string) :
  let dl := downloadIfMissing sortSlice w component version in
  let wd := workingDir w name in
  (exists e, snd dl = inl e
     /\ launchComponent sortSlice w component version name args
        = (fst dl, NoProcess e))
  \/ (exists bin e, snd dl = inr bin /\ MkdirAll w wd = Some e
        /\ launchComponent sortSlice w component version name args
           = ((fst dl ++ [EvMkdirAll wd])%list, NoProcess e))
  \/ (exists bin, snd dl = inr bin /\ MkdirAll w wd = None
        /\ let p0 := recordOf w component bin args wd 0 in
           let st := Start w bin args (Environ w ++ Env p0)%list wd in
           launchComponent sortSlice w component version name args
           = ((fst dl ++ [EvMkdirAll wd;
                          EvStart bin args (Environ w ++ Env p0)%list wd])%list,
              Launched (recordOf w component bin args wd (observedPid st))
                       (startErr st))).
Proof.
  intros dl wd. unfold launchComponent. rewrite prepare_cases.
  fold dl. fold wd.
  destruct (snd dl) as [e|bin] eqn:Ed.
  - left. exists e. auto.
  - right. destruct (MkdirAll w wd) as [e|] eqn:Em.
    + left. exists bin, e. auto.
    + right. exists bin. repeat split.
      cbv zeta. rewrite <- app_assoc. simpl app.
      unfold recordOf, observedPid. cbn [Env].
      destruct (startedPid (Start w bin args _ wd)); reflexivity.
Qed.

Lemma downloadIfMissing_no_start
  (sortSlice : (string -> string -> bool) -> list string -> list string)
  (w : World) (component : string) (version : Version) :
  startsOf (fst (downloadIfMissing sortSlice w component version)) = []
  /\ mkdirsOf (fst (downloadIfMissing sortSlice w component version)) = []
  /\ encodesOf (fst (downloadIfMissing sortSlice w component version)) = [].
Proof.
  destruct (downloadIfMissing_cases sortSlice w component version)
    as [(e & _ & E)|(versions & _ & F)].
  - rewrite E. auto.
  - inversion F; auto.
Qed.

(** X6: The record [launchComponent] returns describes the process it
    started: [Start] is called once, as the last call and right after
    the working directory was created, with the binary that
    [downloadIfMissing] returned, the arguments given, the directory of
    the record, and the environment of the parent followed by the two
    entries of the record, the second of which names the directory of
    the record; the other fields of the record are the component and the
    arguments. *)
Theorem launched_record_describes_the_started_process
  (sortSlice : (string -> string -> bool) -> list string -> list string)
  (w : World) (component : string) (version : Version) (name : string)
  (args : list string) (p : process) (err : option error)
  (HL : snd (launchComponent sortSlice w component version name args)
        = Launched p err) :
  fst (launchComponent sortSlice w component version name args)
  = (fst (downloadIfMissing sortSlice w component version)
     ++ [EvMkdirAll (Dir p);
         EvStart (Exec p) (Args p) (Environ w ++ Env p)%list (Dir p)])%list
  /\ startsOf (fst (launchComponent sortSlice w component version name args))
     = [EvStart (Exec p) (Args p) (Environ w ++ Env p)%list (Dir p)]
  /\ snd (downloadIfMissing sortSlice w component version) = inr (Exec p)
  /\ MkdirAll w (Dir p) = None
  /\ Component p = component
  /\ Args p = args
  /\ Env p = [ (EnvNameHome w ++ "=" ++ profile_Root w)%string;
               (EnvNameInstanceDataDir w ++ "=" ++ Dir p)%string ].
Proof.
  destruct (downloadIfMissing_no_start sortSlice w component version)
    as (S0 & _ & _).
  destruct (launchComponent_cases sortSlice w component version name args)
    as [(e & _ & E)|[(bin & e & _ & _ & E)|(bin & Ed & Em & E)]];
    rewrite E in HL; cbn [snd] in HL; try discriminate.
  cbv zeta in *. injection HL as <- <-. rewrite E. cbn [fst].
  rewrite startsOf_app, S0. simpl. auto 10.
Qed.

Lemma launched_record_describes_the_started_process_witness :
  exists p,
    snd (launchComponent insertionSort halfStartedWorld "tidb" "" "p1"
           ["--host"; "0.0.0.0"])
    = Launched p (Some (External "start: pipe setup failed"))
    /\ startsOf (fst (launchComponent insertionSort halfStartedWorld
                        "tidb" "" "p1" ["--host"; "0.0.0.0"]))
       = [EvStart (Exec p) (Args p)
            (Environ halfStartedWorld ++ Env p)%list (Dir p)]
    /\ Args p = ["--host"; "0.0.0.0"]
    /\ Dir p = "/home/tiup/data/p1".
Proof.
  eexists. split; [reflexivity|].
  epose proof (launched_record_describes_the_started_process insertionSort
                 halfStartedWorld "tidb" "" "p1" ["--host"; "0.0.0.0"]
                 _ _ eq_refl) as (_ & A & _ & _ & _ & B & _).
  split; [exact A|]. split; [exact B|reflexivity].
Defined.

(** X7: When [launchComponent] returns no record, no process was started:
    the error is the one of [downloadIfMissing], or the one of the
    creation of the working directory, which is then the last call. *)
Theorem launch_without_record_started_nothing
  (sortSlice : (string -> string -> bool) -> list string -> list string)
  (w : World) (component : string) (version : Version) (name : string)
  (args : list string) (e : error)
  (HL : snd (launchComponent sortSlice w component version name args)
        = NoProcess e) :
  startsOf (fst (launchComponent sortSlice w component version name args))
  = []
  /\ ((snd (downloadIfMissing sortSlice w component version) = inl e
       /\ fst (launchComponent sortSlice w component version name args)
          = fst (downloadIfMissing sortSlice w component version))
      \/ (exists bin d,
            snd (downloadIfMissing sortSlice w component version) = inr bin
            /\ MkdirAll w d = Some e
            /\ fst (launchComponent sortSlice w component version name args)
               = (fst (downloadIfMissing sortSlice w component version)
                  ++ [EvMkdirAll d])%list)).
Proof.
  destruct (downloadIfMissing_no_start sortSlice w component version)
    as (S0 & _ & _).
  destruct (launchComponent_cases sortSlice w component version name args)
    as [(e' & Ed & E)|[(bin & e' & Ed & Em & E)|(bin & Ed & Em & E)]];
    rewrite E in HL; cbn [snd] in HL; try discriminate;
    injection HL as <-; rewrite E; cbn [fst].
  - split; [exact S0|]. left. auto.
  - rewrite startsOf_app, S0. split; [reflexivity|].
    right. exists bin, (workingDir w name). auto.
Qed.

Lemma launch_without_record_started_nothing_witness :
  startsOf (fst (launchComponent insertionSort readOnlyHome
                   "tidb" "" "p1" []))
  = []
  /\ fst (launchComponent insertionSort readOnlyHome "tidb" "" "p1" [])
     = [EvInstalledVersions "tidb"; EvBinaryPath "tidb" "v5.1.0";
        EvMkdirAll "/srv/outer"].
Proof.
  destruct (launch_without_record_started_nothing insertionSort readOnlyHome
              "tidb" "" "p1" [] (External "mkdir: read-only file system")
              eq_refl) as [A _].
  split; [exact A|reflexivity].
Defined.

(** X8: The working directory of the launched process: the value of the
    instance-data-directory variable of the parent when it is set,
    whatever name was given; otherwise the directory of the given name
    under the data directory of the profile; and with no name, the
    directory of the name that [base62Name] makes of the clock. *)
Theorem working_directory_is_inherited_or_named
  (sortSlice : (string -> string -> bool) -> list string -> list string)
  (w : World) (component : string) (version : Version) (name : string)
  (args : list string) (p : process) (err : option error)
  (HL : snd (launchComponent sortSlice w component version name args)
        = Launched p err) :
  (Getenv w (EnvNameInstanceDataDir w) <> EmptyString ->
   Dir p = Getenv w (EnvNameInstanceDataDir w))
  /\ (Getenv w (EnvNameInstanceDataDir w) = EmptyString ->
      name <> EmptyString ->
      Dir p = profile_Path w (filepath_Join w (DataParentDir w) name))
  /\ (Getenv w (EnvNameInstanceDataDir w) = EmptyString ->
      name = EmptyString ->
      exists s, base62 (UnixNano w) = Returned s
        /\ Dir p = profile_Path w (filepath_Join w (DataParentDir w) s)).
Proof.
  destruct (launchComponent_cases sortSlice w component version name args)
    as [(e & _ & E)|[(bin & e & _ & _ & E)|(bin & Ed & Em & E)]];
    rewrite E in HL; cbn [snd] in HL; try discriminate.
  cbv zeta in *. injection HL as <- <-. cbn [Dir recordOf].
  unfold workingDir. repeat split.
  - intros H. now rewrite (isEmpty_false _ H).
  - intros -> H. simpl. now rewrite (isEmpty_false _ H).
  - intros -> ->. simpl. unfold base62Name.
    destruct (base62_returns (UnixNano w)) as [s Hs].
    exists s. rewrite Hs. auto.
Qed.

Lemma working_directory_is_inherited_or_named_witness :
  exists p,
    snd (launchComponent insertionSort nestedWorld "tidb" "" "p1" [])
    = Launched p None
    /\ Dir p = "/srv/outer".
Proof.
  eexists. split; [reflexivity|].
  epose proof (working_directory_is_inherited_or_named insertionSort
                 nestedWorld "tidb" "" "p1" [] _ None eq_refl) as (A & _).
  apply A. discriminate.
Defined.

(** *** isSupportedComponent and RunE *)

(** X9: A component is accepted exactly when the local manifest has it, or
    the local manifest does not and the manifest fetched from the
    repository has it; the repository is asked exactly when the local
    manifest does not have the component, and the fetched manifest is
    saved only if the fetch worked. *)
Theorem component_is_supported_when_a_manifest_has_it
  (w : World) (component : string) :
  let known :=
    match profile_Manifest w with
    | Some hasComponent => hasComponent component
    | None => false
    end in
  (snd (isSupportedComponent w component) = true
   <-> known = true
       \/ exists hasComponent,
            repository_Manifest w = inr hasComponent
            /\ hasComponent component = true)
  /\ (fst (isSupportedComponent w component) = [] <-> known = true)
  /\ (In EvSaveManifest (fst (isSupportedComponent w component))
      <-> known = false
          /\ exists hasComponent, repository_Manifest w = inr hasComponent).
Proof.
  intros known. unfold isSupportedComponent. fold known.
  destruct known.
  - simpl. split; [|split].
    + split; auto.
    + split; auto.
    + split; [contradiction|]. intros [E _]. discriminate.
  - destruct (repository_Manifest w) as [e|m]; simpl.
    + split; [|split].
      * split; [discriminate|].
        intros [E|(m & E & _)]; discriminate.
      * split; discriminate.
      * split; [intros [E|[]]; discriminate|].
        intros [_ (m & E)]. discriminate.
    + split; [|split].
      * split; [eauto|].
        intros [E|(m' & E & Hm)]; [discriminate|]. congruence.
      * split; discriminate.
      * split; eauto.
Qed.

Lemma RunE_unsupported
  (sortSlice : (string -> string -> bool) -> list string -> list string)
  (w : World) (name arg0 : string) (rest : list string)
  (component : string) (version : Version) :
  ParseCompVersion w arg0 = (component, version) ->
  snd (isSupportedComponent w component) = false ->
  RunE sortSlice w name (arg0 :: rest)
  = (fst (isSupportedComponent w component),
     Some (Errorf ("unkonwn component `" ++ component
            ++ "` (see supported components via `tiup list --refresh`)"))).
Proof.
  intros HP HS. unfold RunE. rewrite HP.
  destruct (isSupportedComponent w component) as [t0 s]. simpl in HS.
  subst s. reflexivity.
Qed.

(** X10: For a component that no manifest has, [RunE] returns the error that
    names it and does nothing else: beyond the fetch of the manifest, no
    call is made, the installed versions are not even read. *)
Theorem unknown_component_is_refused_before_any_launch
  (sortSlice : (string -> string -> bool) -> list string -> list string)
  (w : World) (name arg0 : string) (rest : list string)
  (component : string) (version : Version)
  (HP : ParseCompVersion w arg0 = (component, version))
  (HS : snd (isSupportedComponent w component) = false) :
  snd (RunE sortSlice w name (arg0 :: rest))
  = Some (Errorf ("unkonwn component `" ++ component
           ++ "` (see supported components via `tiup list --refresh`)"))
  /\ Forall (fun ev => ev = EvRepositoryManifest \/ ev = EvSaveManifest)
       (fst (RunE sortSlice w name (arg0 :: rest))).
Proof.
  rewrite (RunE_unsupported sortSlice w name arg0 rest component version
             HP HS).
  split; [reflexivity|]. cbn [fst].
  unfold isSupportedComponent.
  destruct (match profile_Manifest w with
            | Some hasComponent => hasComponent component
            | None => false
            end); [constructor|].
  destruct (repository_Manifest w);
    repeat (apply Forall_cons; [auto|]); constructor.
Qed.

Lemma unknown_component_is_refused_before_any_launch_witness :
  snd (RunE insertionSort installedWorld "" ["mysql:v8"; "--port"; "1"])
  = Some (Errorf ("unkonwn component `mysql` (see supported "
                  ++ "components via `tiup list --refresh`)"))
  /\ Forall (fun ev => ev = EvRepositoryManifest \/ ev = EvSaveManifest)
       (fst (RunE insertionSort installedWorld ""
               ["mysql:v8"; "--port"; "1"])).
Proof.
  apply (unknown_component_is_refused_before_any_launch insertionSort
           installedWorld "" "mysql:v8" ["--port"; "1"] "mysql" "v8");
    reflexivity.
Defined.

Lemma saveMeta_encodes (w : World) (p : process) :
  encodesOf (saveMeta w p)
  = match OpenFile w (filepath_Join w (Dir p) (MetaFilename w)) with
    | None => [p]
    | Some _ => []
    end.
Proof.
  unfold saveMeta.
  destruct (OpenFile w (filepath_Join w (Dir p) (MetaFilename w)));
    reflexivity.
Qed.

Lemma launchComponent_no_encode
  (sortSlice : (string -> string -> bool) -> list string -> list string)
  (w : World) (component : string) (version : Version) (name : string)
  (args : list string) :
  encodesOf (fst (launchComponent sortSlice w component version name args))
  = [].
Proof.
  destruct (downloadIfMissing_no_start sortSlice w component version)
    as (_ & _ & E0).
  destruct (launchComponent_cases sortSlice w component version name args)
    as [(e & _ & E)|[(bin & e & _ & _ & E)|(bin & Ed & Em & E)]];
    rewrite E; cbn [fst]; rewrite ?encodesOf_app, E0; reflexivity.
Qed.

Lemma isSupportedComponent_no_encode (w : World) (component : string) :
  encodesOf (fst (isSupportedComponent w component)) = [].
Proof.
  unfold isSupportedComponent.
  destruct (match profile_Manifest w with
            | Some hasComponent => hasComponent component
            | None => false
            end); [reflexivity|].
  destruct (repository_Manifest w); reflexivity.
Qed.

(** X11: What is written to the metadata file is the record that
    [launchComponent] returned, pid included, and it is written at most
    once: when the launch had no error or left a pid, and the file could
    be opened.  When the file cannot be opened nothing is written. *)
Theorem written_record_is_the_launched_record
  (sortSlice : (string -> string -> bool) -> list string -> list string)
  (w : World) (name arg0 : string) (rest : list string)
  (component : string) (version : Version) (l : Launch)
  (HP : ParseCompVersion w arg0 = (component, version))
  (HS : snd (isSupportedComponent w component) = true)
  (HL : snd (launchComponent sortSlice w component version name rest) = l) :
  encodesOf (fst (RunE sortSlice w name (arg0 :: rest)))
  = match l with
    | NoProcess _ => []
    | Launched p err =>
        match err, Pid p =? 0,
              OpenFile w (filepath_Join w (Dir p) (MetaFilename w)) with
        | None, _, None => [p]
        | Some _, false, None => [p]
        | _, _, _ => []
        end
    end.
Proof.
  rewrite (RunE_supported sortSlice w name arg0 rest component version
             HP HS).
  cbv zeta. rewrite HL.
  pose proof (isSupportedComponent_no_encode w component) as E0.
  pose proof (launchComponent_no_encode sortSlice w component version
                name rest) as E1.
  destruct l as [e|p [e|]]; cbn [fst mustSave].
  - rewrite !encodesOf_app, E0, E1. reflexivity.
  - rewrite !encodesOf_app, E0, E1. simpl.
    destruct (Pid p =? 0); simpl; [reflexivity|].
    rewrite saveMeta_encodes.
    destruct (OpenFile w (filepath_Join w (Dir p) (MetaFilename w)));
      reflexivity.
  - rewrite !encodesOf_app, E0, E1, saveMeta_encodes. simpl.
    assert (W : encodesOf (fst (waitOrSignal w component p)) = []).
    { unfold waitOrSignal.
      destruct (Race w); [destruct (String.eqb component "tidb")|];
        reflexivity. }
    assert (C : encodesOf (cancel (running w p)) = []).
    { destruct (running w p); reflexivity. }
    rewrite W, C, !app_nil_r.
    destruct (OpenFile w (filepath_Join w (Dir p) (MetaFilename w)));
      destruct (Pid p =? 0); reflexivity.
Qed.

Lemma written_record_is_the_launched_record_witness :
  exists p,
    snd (launchComponent insertionSort (samples.signalled SIGINT)
           "tidb" "" "p1" [])
    = Launched p None
    /\ Pid p = 4242
    /\ encodesOf (fst (RunE insertionSort (samples.signalled SIGINT) "p1"
                         ["tidb"])) = [p].
Proof.
  eexists. split; [reflexivity|]. split; [reflexivity|].
  exact (written_record_is_the_launched_record insertionSort
           (samples.signalled SIGINT) "p1" "tidb" [] "tidb" "" _
           eq_refl eq_refl eq_refl).
Defined.



(** *** base62Name *)

Lemma valueFrom_app (s r : string) :
  forall acc, valueFrom acc (s ++ r) = valueFrom (valueFrom acc s) r.
Proof.
  induction s as [|c s IH]; intros acc; simpl; [reflexivity|apply IH].
Qed.

Lemma append_assoc_one (s : string) (c : ascii) (b : string) :
  ((s ++ String c EmptyString) ++ b)%string = (s ++ String c b)%string.
Proof.
  induction s as [|a s IH]; simpl; congruence.
Qed.

Lemma append_empty (s : string) : (s ++ EmptyString)%string = s.
Proof.
  induction s as [|a s IH]; simpl; congruence.
Qed.

Lemma length_append_one (s : string) (c : ascii) :
  String.length (s ++ String c EmptyString) = S (String.length s).
Proof.
  induction s as [|a s IH]; simpl; congruence.
Qed.

(** Every byte of [sets] stands at one place only. *)
Lemma index_indexOf (i : Z) :
  0 <= i < 62 ->
  exists c, index sets i = Some c /\ indexOf c sets = i.
Proof.
  intros H.
  assert (A : forallb
                (fun n => match index sets (Z.of_nat n) with
                          | Some c => indexOf c sets =? Z.of_nat n
                          | None => false
                          end)
                (seq 0 62) = true) by (vm_compute; reflexivity).
  rewrite forallb_forall in A.
  specialize (A (Z.to_nat i)).
  rewrite Z2Nat.id in A by lia.
  assert (I : In (Z.to_nat i) (seq 0 62)) by (apply in_seq; lia).
  specialize (A I).
  destruct (index sets i) as [c|]; [|discriminate].
  exists c. split; [reflexivity|]. now apply Z.eqb_eq.
Qed.

(** Below [2 ^ 53] the conversion to [float64] is exact. *)
Lemma float64_of_int_exact (n : Z) :
  0 <= n < 2 ^ 53 -> float64_of_int n = n.
Proof.
  intros H. unfold float64_of_int. rewrite Z.abs_eq by lia.
  destruct (Z.ltb_spec (Z.log2 n) 53) as [L|L]; [reflexivity|].
  exfalso. destruct (Z.eq_dec n 0) as [->|N]; [simpl in L; lia|].
  assert (Z.log2 n < 53) by (apply Z.log2_lt_pow2; lia). lia.
Qed.

Lemma base62Loop_exact (fuel : nat) :
  forall num b, 0 <= num < 2 ^ 53 -> num < 2 ^ Z.of_nat fuel ->
  exists s, base62Loop fuel num b = Returned (s ++ b)%string
            /\ valueFrom 0 s = num.
Proof.
  induction fuel as [|fuel IH]; intros num b H F.
  - simpl in F. assert (num = 0) by lia. subst.
    exists EmptyString. auto.
  - destruct (Z.gtb_spec num 0) as [P|P].
    + cbn [base62Loop]. destruct (Z.gtb_spec num 0); [|lia].
      change (float64_of_int base) with 62.
      rewrite (float64_of_int_exact num H). unfold math_Mod, base.
      rewrite Z.rem_mod_nonneg, Z.quot_div_nonneg by lia.
      destruct (index_indexOf (num mod 62)) as (c & E & I);
        [apply Z.mod_pos_bound; lia|].
      rewrite E.
      assert (Q : 0 <= num / 62 < 2 ^ 53).
      { split; [apply Z.div_pos; lia|].
        apply Z.div_lt_upper_bound; lia. }
      assert (Q' : num / 62 < 2 ^ Z.of_nat fuel).
      { rewrite Nat2Z.inj_succ, Z.pow_succ_r in F by lia.
        apply Z.div_lt_upper_bound; lia. }
      destruct (IH (num / 62) (String c b) Q Q') as (s & R & V).
      exists (s ++ String c EmptyString)%string.
      rewrite R, append_assoc_one. split; [reflexivity|].
      rewrite valueFrom_app, V. cbn [valueFrom]. rewrite I. unfold base.
      pose proof (Z.div_mod num 62). lia.
    + assert (num = 0) by lia. subst.
      exists EmptyString. destruct fuel; auto.
Qed.

(** X13: Below [2 ^ 53], where the conversion to [float64] loses nothing,
    the name is the numeral of the timestamp in base 62: read back digit
    by digit it gives the timestamp, so two such timestamps with the same
    name are equal. *)
Theorem base62_name_reads_back_below_2_53 (num : Z)
  (Hpos : 0 < num) (Hexact : num < 2 ^ 53) :
  exists s, base62 num = Returned s /\ value62 s = num.
Proof.
  unfold base62, value62.
  destruct (base62Loop_exact (S (Z.to_nat (Z.log2 num))) num EmptyString)
    as (s & R & V).
  - lia.
  - rewrite Nat2Z.inj_succ, Z2Nat.id by apply Z.log2_nonneg.
    pose proof (Z.log2_spec num Hpos). lia.
  - exists s. rewrite R. split; [|exact V].
    f_equal. clear. induction s as [|a s IHs]; simpl; congruence.
Qed.

Lemma base62_name_reads_back_below_2_53_witness :
  exists s, base62 1588000000000 = Returned s /\ value62 s = 1588000000000.
Proof.
  apply (base62_name_reads_back_below_2_53 1588000000000); reflexivity.
Defined.

Lemma base62Loop_length (k : nat) :
  forall fuel num b r, num < 62 ^ Z.of_nat k ->
  base62Loop fuel num b = Returned r ->
  exists s, r = (s ++ b)%string /\ (String.length s <= k)%nat.
Proof.
  induction k as [|k IH]; intros fuel num b r H R.
  - simpl in H. destruct fuel; simpl in R;
      (destruct (Z.gtb_spec num 0); [lia|]); injection R as <-;
      exists EmptyString; auto.
  - destruct (Z.gtb_spec num 0) as [P|P].
    + destruct fuel as [|fuel]; cbn [base62Loop] in R;
        (destruct (Z.gtb_spec num 0); [|lia]); [discriminate|].
      destruct (index sets _) as [c|]; [|discriminate].
      assert (Q : Z.quot num base < 62 ^ Z.of_nat k).
      { unfold base. rewrite Z.quot_div_nonneg by lia.
        rewrite Nat2Z.inj_succ, Z.pow_succ_r in H by lia.
        apply Z.div_lt_upper_bound; lia. }
      destruct (IH fuel _ _ _ Q R) as (s & -> & L).
      exists (s ++ String c EmptyString)%string.
      rewrite append_assoc_one. split; [reflexivity|].
      rewrite length_append_one. lia.
    + destruct fuel; simpl in R;
        (destruct (Z.gtb_spec num 0); [lia|]); injection R as <-;
        exists EmptyString; split; auto; simpl; lia.
Qed.

(** X14: The name of an [int64] timestamp has at most 11 bytes. *)
Theorem base62_name_has_at_most_11_bytes (num : Z) (s : string)
  (Hint64 : num <= maxInt)
  (HR : base62 num = Returned s) :
  (String.length s <= 11)%nat.
Proof.
  unfold base62 in HR.
  assert (B : num < 62 ^ Z.of_nat 11).
  { unfold maxInt in Hint64. change (Z.of_nat 11) with 11. lia. }
  destruct (base62Loop_length 11 _ num EmptyString s B HR)
    as (s' & E & L).
  - subst s. now rewrite append_empty.
Qed.

Lemma base62_name_has_at_most_11_bytes_witness :
  (String.length "AzL8n0Y58i8" <= 11)%nat.
Proof.
  apply (base62_name_has_at_most_11_bytes maxInt "AzL8n0Y58i8").
  - apply Z.le_refl.
  - reflexivity.
Defined.

End run_coverage.

(** ** The playground commands: targets, counts and flags *)

Module playground_coverage.
Import GoString GoLib playground playground_vocabulary playground_cli.
Import playground_facts coverage_vocabulary coverage_samples.

(** *** Sending *)

(** X15: Sending a list of commands and then another is sending the two
    lists as one: the second list goes out after the first, and only if
    the first went through. *)
Theorem sending_two_lists_is_sending_them_in_turn (net : Net)
  (addr : string) (cmds1 cmds2 : list Command) (t : list IOEvent) :
  sendCommandsAndPrintResult net (cmds1 ++ cmds2) addr t
  = match sendCommandsAndPrintResult net cmds1 addr t with
    | (None, t1) => sendCommandsAndPrintResult net cmds2 addr t1
    | (Some err, t1) => (Some err, t1)
    end.
Proof.
  revert t. induction cmds1 as [|cmd cmds1 IH]; intros t; [reflexivity|].
  cbn [app sendCommandsAndPrintResult].
  destruct (requestCommand net cmd addr t) as [[err|rc] t1]; [reflexivity|].
  destruct (readErr rc); [reflexivity|]. apply IH.
Qed.

(** X16: Without a running playground nothing is sent: when the port cannot
    be read, every operation returns that error ([scaleIn], [scaleOut]
    and [display] with a stack added, [restart] and [partition] as it
    is) and exchanges nothing. *)
Theorem no_port_no_request (net : Net) (op : Operation)
  (t : list IOEvent) (e : error)
  (HT : targetTag net = inl e) :
  runOp net op t
  = (Some match op with
          | OpRestart _ | OpPartition _ => e
          | _ => AddStack e
          end, t).
Proof.
  destruct op; simpl;
    unfold scaleOut, scaleIn, display, restart, partition;
    rewrite HT; reflexivity.
Qed.

Lemma no_port_no_request_witness :
  runOp nothingRuns (OpScaleIn [111; 222]) []
  = (Some (AddStack (External "no playground is running")), [])
  /\ runOp nothingRuns (OpRestart ["111"]) []
     = (Some (External "no playground is running"), []).
Proof.
  split.
  - apply (no_port_no_request nothingRuns (OpScaleIn [111; 222]) []).
    reflexivity.
  - apply (no_port_no_request nothingRuns (OpRestart ["111"]) []).
    reflexivity.
Defined.

(** *** Counts *)

Lemma length_buildCommands (tp : CommandType) (opt : bootOptions) :
  Z.of_nat (List.length (buildCommands tp opt))
  = Z.max 0 (Num (pd opt)) + Z.max 0 (Num (tikv opt))
    + Z.max 0 (Num (pump opt)) + Z.max 0 (Num (tiflash opt))
    + Z.max 0 (Num (tidb opt)) + Z.max 0 (Num (ticdc opt))
    + Z.max 0 (Num (drainer opt)).
Proof.
  rewrite buildCommands_flat_map. unfold kinds. simpl.
  rewrite !length_app, !repeat_length. simpl. lia.
Qed.

(** X17: [scaleOut] returns the number of instances asked for, the counts
    that are not positive counting for nothing, whether or not the
    commands could be sent; when that number is 0 it sends nothing and
    returns no error. *)
Theorem scaleOut_returns_the_number_of_instances (net : Net)
  (opt : bootOptions) (t : list IOEvent) (port : Z)
  (HT : targetTag net = inr port) :
  let n := Z.max 0 (Num (pd opt)) + Z.max 0 (Num (tikv opt))
           + Z.max 0 (Num (pump opt)) + Z.max 0 (Num (tiflash opt))
           + Z.max 0 (Num (tidb opt)) + Z.max 0 (Num (ticdc opt))
           + Z.max 0 (Num (drainer opt)) in
  fst (fst (scaleOut net opt t)) = n
  /\ (n = 0 -> scaleOut net opt t = ((0, None), t)).
Proof.
  intros n. unfold scaleOut. rewrite HT.
  pose proof (length_buildCommands ScaleOutCommandType opt) as L.
  fold n in L. rewrite L.
  destruct (Z.eqb_spec n 0) as [E|E].
  - split; [now rewrite E|reflexivity].
  - destruct (sendCommandsAndPrintResult net
                (buildCommands ScaleOutCommandType opt)
                ("127.0.0.1:" ++ Itoa port)%string t).
    split; [reflexivity|contradiction].
Qed.

Lemma scaleOut_returns_the_number_of_instances_witness :
  fst (fst (scaleOut samples.firstRequestFails samples.onePdTwoTidb []))
  = 3.
Proof.
  destruct (scaleOut_returns_the_number_of_instances
              samples.firstRequestFails samples.onePdTwoTidb [] 9527
              eq_refl) as [A _].
  exact A.
Defined.

(** *** Targets *)

Lemma digitsValue_of_uint_acc (d : Decimal.uint) :
  forall acc : positive,
    digitsValue (Zpos acc) (NilEmpty.string_of_uint d)
    = Some (Zpos (Pos.of_uint_acc d acc)).
Proof.
  induction d; intros acc;
    cbn [NilEmpty.string_of_uint Pos.of_uint_acc digitsValue];
    try reflexivity;
    match goal with
    | |- context [isDigit ?c] => change (isDigit c) with true
    end; cbv iota;
    match goal with
    | |- context [Z.of_nat (nat_of_ascii ?c)] =>
        let v := eval vm_compute in (Z.of_nat (nat_of_ascii c)) in
        change (Z.of_nat (nat_of_ascii c)) with v
    end;
    rewrite <- IHd; f_equal; lia.
Qed.

Lemma digitsValue_of_uint (d : Decimal.uint) :
  digitsValue 0 (NilEmpty.string_of_uint d)
  = Some (Z.of_N (Pos.of_uint d)).
Proof.
  induction d;
    cbn [NilEmpty.string_of_uint Pos.of_uint digitsValue];
    try reflexivity;
    match goal with
    | |- context [isDigit ?c] => change (isDigit c) with true
    end; cbv iota;
    match goal with
    | |- context [Z.of_nat (nat_of_ascii ?c)] =>
        let v := eval vm_compute in (Z.of_nat (nat_of_ascii c)) in
        change (Z.of_nat (nat_of_ascii c)) with v
    end;
    try exact IHd;
    simpl Z.of_N; rewrite <- digitsValue_of_uint_acc; reflexivity.
Qed.

Lemma string_of_uint_digits (d : Decimal.uint) :
  d <> Decimal.Nil ->
  isEmpty (NilEmpty.string_of_uint d) = false
  /\ startsWith "-" (NilEmpty.string_of_uint d) = false
  /\ startsWith "+" (NilEmpty.string_of_uint d) = false
  /\ NilZero.string_of_uint d = NilEmpty.string_of_uint d.
Proof.
  destruct d; [congruence| | | | | | | | | |]; intros _;
    repeat split; reflexivity.
Qed.

(** Reading on can only make the number larger. *)
Lemma digitsValue_grows (s : string) :
  forall n v, 0 <= n -> digitsValue n s = Some v -> n <= v.
Proof.
  induction s as [|ch r IH]; intros n v Hn H; simpl in H.
  - injection H as <-. lia.
  - destruct (isDigit ch) eqn:D; [|discriminate].
    assert (Hd : 0 <= Z.of_nat (nat_of_ascii ch) - 48).
    { unfold isDigit in D. apply andb_prop in D as [D1 _].
      apply Nat.leb_le in D1. lia. }
    apply IH in H; lia.
Qed.

(** On digits whose number fits 64 bits the loop of [ParseUint] gives
    that number. *)
Lemma ParseUint_digitsValue (s : string) :
  forall n v, 0 <= n -> digitsValue n s = Some v -> v <= maxUint64 ->
    ParseUint n s = Digits v.
Proof.
  induction s as [|ch r IH]; intros n v Hn H Hv; simpl in H |- *.
  - now injection H as <-.
  - destruct (isDigit ch) eqn:D; [|discriminate].
    assert (Hd : 0 <= Z.of_nat (nat_of_ascii ch) - 48).
    { unfold isDigit in D. apply andb_prop in D as [D1 _].
      apply Nat.leb_le in D1. lia. }
    assert (G : n * 10 + (Z.of_nat (nat_of_ascii ch) - 48) <= v).
    { apply (digitsValue_grows r); [lia|exact H]. }
    unfold maxUint64 in *.
    destruct (Z.geb_spec n 1844674407370955162); [lia|].
    destruct (Z.gtb_spec (n * 10 + (Z.of_nat (nat_of_ascii ch) - 48))
                (2 ^ 64 - 1)); [lia|].
    apply IH; [lia|exact H|exact Hv].
Qed.

(** [strconv.Atoi] reads back what [strconv.Itoa] writes. *)
Lemma Atoi_Itoa (n : Z) :
  minInt <= n <= maxInt -> Atoi (Itoa n) = (n, None).
Proof.
  intros H. unfold Itoa, Atoi.
  destruct n as [|p|p]; [reflexivity| |].
  - simpl Z.to_int. cbn [NilZero.string_of_int].
    destruct (string_of_uint_digits (Pos.to_uint p)
                (DecimalPos.Unsigned.to_uint_nonnil p)) as (E & M & P & ->).
    rewrite M, P. cbn [orb]. cbv iota. rewrite E. cbv iota zeta.
    rewrite (ParseUint_digitsValue _ 0 (Zpos p));
      [|lia
       |rewrite digitsValue_of_uint, DecimalPos.Unsigned.of_to; reflexivity
       |unfold maxInt, maxUint64 in *; lia].
    cbn [negb andb].
    destruct (Z.geb_spec (Zpos p) (2 ^ 63)); [unfold maxInt in *; lia|].
    reflexivity.
  - simpl Z.to_int. cbn [NilZero.string_of_int startsWith].
    destruct (string_of_uint_digits (Pos.to_uint p)
                (DecimalPos.Unsigned.to_uint_nonnil p)) as (E & M & P & ->).
    change (Ascii.eqb "-" "-") with true. cbn [orb tail]. cbv iota.
    rewrite E. cbv iota zeta.
    rewrite (ParseUint_digitsValue _ 0 (Zpos p));
      [|lia
       |rewrite digitsValue_of_uint, DecimalPos.Unsigned.of_to; reflexivity
       |unfold minInt, maxUint64 in *; lia].
    cbn [negb andb].
    destruct (Z.gtb_spec (Zpos p) (2 ^ 63)); [unfold minInt in *; lia|].
    reflexivity.
Qed.

(** The number [strconv.Atoi] gives with an error is 0 or a bound of
    [int]. *)
Lemma Atoi_error (s : string) :
  snd (Atoi s) <> None ->
  fst (Atoi s) = 0 \/ fst (Atoi s) = maxInt \/ fst (Atoi s) = minInt.
Proof.
  unfold Atoi.
  destruct (isEmpty (if startsWith "-" s || startsWith "+" s
                     then tail s else s)); [auto|].
  cbv zeta.
  destruct (ParseUint 0 _) as [un| |]; [|auto|].
  - destruct (negb (startsWith "-" s) && (un >=? 2 ^ 63)); [auto|].
    destruct (startsWith "-" s && (un >? 2 ^ 63)); [auto|].
    simpl. congruence.
  - destruct (startsWith "-" s); auto.
Qed.

(** X18: [restart] and [partition] build one command for each argument, in
    the order of the arguments, and reject none: the decimal text of a
    pid gives a command for that pid, and an argument that
    [strconv.Atoi] refuses gives a command all the same, for pid 0 (or
    for a bound of [int] when the number is out of range). *)
Theorem one_command_for_each_argument (tp : CommandType)
  (args : list string) :
  List.length (pidCommands tp args) = List.length args
  /\ map PID (pidCommands tp args) = map (fun arg => fst (Atoi arg)) args
  /\ (forall pids, Forall (fun pid => minInt <= pid <= maxInt) pids ->
        map PID (pidCommands tp (map Itoa pids)) = pids)
  /\ (forall arg, In arg args -> snd (Atoi arg) <> None ->
        exists c, In c (pidCommands tp args)
          /\ (PID c = 0 \/ PID c = maxInt \/ PID c = minInt)).
Proof.
  rewrite pidCommands_map. repeat split.
  - now rewrite length_map.
  - rewrite map_map. reflexivity.
  - intros pids H. rewrite pidCommands_map, !map_map. simpl.
    induction H as [|pid pids Hp _ IH]; simpl; [reflexivity|].
    now rewrite (Atoi_Itoa pid Hp), IH.
  - intros arg Hin Herr.
    eexists. split; [apply in_map; exact Hin|]. simpl.
    now apply Atoi_error.
Qed.

Lemma one_command_for_each_argument_witness :
  map PID (pidCommands RestartCommandType (map Itoa [4242; 17])) = [4242; 17]
  /\ exists c, In c (pidCommands RestartCommandType ["4242"; "tidb-0"])
       /\ (PID c = 0 \/ PID c = maxInt \/ PID c = minInt).
Proof.
  destruct (one_command_for_each_argument RestartCommandType
              ["4242"; "tidb-0"]) as (_ & _ & A & B).
  split.
  - apply A. repeat constructor; unfold minInt, maxInt; lia.
  - apply (B "tidb-0"); [right; now left|discriminate].
Defined.

(** *** Flags *)

(** A property of the options that holds of the declared options and
    that no flag breaks holds whatever flags are given. *)
Lemma parseFlags_invariant (I : bootOptions -> Prop) :
  I declared ->
  (forall opt a, I opt -> I (setFlag opt a)) ->
  forall given, I (parseFlags given).
Proof.
  intros H0 Hstep given. unfold parseFlags.
  revert H0. generalize declared.
  induction given as [|a given IH]; intros opt H; simpl; auto.
Qed.

Ltac flag_cases :=
  repeat match goal with
  | |- context [String.eqb ?a ?b] => destruct (String.eqb a b)
  end.

(** No flag writes the config path of tiflash or ticdc, or the host of
    a kind other than tidb and pd. *)
Lemma setFlag_keeps_unreachable (opt : bootOptions) (a : FlagArg) :
  let unreachable (o : bootOptions) :=
    [ConfigPath (tiflash o); ConfigPath (ticdc o); Host (tikv o);
     Host (pump o); Host (tiflash o); Host (ticdc o); Host (drainer o)] in
  unreachable (setFlag opt a) = unreachable opt.
Proof.
  destruct a as [name v|name v]; unfold setFlag.
  - destruct (findInt name intFlags) as [k|]; [|reflexivity].
    destruct k; reflexivity.
  - unfold findString, stringFlags. flag_cases; reflexivity.
Qed.

Lemma In_buildCommands (tp : CommandType) (opt : bootOptions)
  (c : Command) :
  In c (buildCommands tp opt) ->
  exists k, In k (kinds opt)
    /\ c = {| CommandType_ := tp; PID := 0; ComponentID := fst k;
              Config_ := snd k |}.
Proof.
  rewrite buildCommands_flat_map. intros H.
  apply in_flat_map in H. destruct H as (k & Hk & Hc).
  apply repeat_spec in Hc. eauto.
Qed.

(** X19: The flags of scale-out: once they are declared every count is 0 and
    every string empty.  Whatever flags are given, the config path of
    tiflash and of ticdc stays empty, so that no scale-out command for
    one of these two kinds carries a config path: the flag
    [tiflash.config] writes the config path of tidb, as [db.config]
    does. *)
Theorem tiflash_config_flag_writes_the_tidb_config
  (given : list FlagArg) :
  declared = zeroOptions
  /\ ConfigPath (tiflash (parseFlags given)) = ""
  /\ ConfigPath (ticdc (parseFlags given)) = ""
  /\ (forall v,
        ConfigPath
          (tidb (parseFlags (given ++ [StringArg "tiflash.config" v])))
        = v)
  /\ (forall c,
        In c (buildCommands ScaleOutCommandType (parseFlags given)) ->
        ComponentID c = "tiflash" \/ ComponentID c = "ticdc" ->
        ConfigPath (Config_ c) = "").
Proof.
  assert (U : ConfigPath (tiflash (parseFlags given)) = ""
              /\ ConfigPath (ticdc (parseFlags given)) = "").
  { apply (parseFlags_invariant
             (fun o => ConfigPath (tiflash o) = ""
                       /\ ConfigPath (ticdc o) = "")).
    - split; reflexivity.
    - intros opt a [H1 H2].
      pose proof (setFlag_keeps_unreachable opt a) as K.
      cbv zeta in K. injection K as K1 K2 _. now rewrite K1, K2. }
  destruct U as [U1 U2].
  split; [reflexivity|]. split; [exact U1|]. split; [exact U2|]. split.
  - intros v. unfold parseFlags. rewrite fold_left_app. reflexivity.
  - intros c Hc Hk.
    destruct (In_buildCommands _ _ _ Hc) as (k & Hin & ->).
    cbn [ComponentID Config_] in *. unfold kinds in Hin.
    repeat (destruct Hin as [<-|Hin]); cbn [fst snd] in *;
      try contradiction;
      try (destruct Hk as [Hk|Hk]; discriminate);
      assumption.
Qed.

(** *** Help *)

(** X20: [scale-in] without a pid shows the help and does not even read the
    port.  [scale-out] reads the port first: without a running
    playground it returns that error and shows no help; with one, it
    shows the help exactly when the counts ask for no instance, and then
    it has sent nothing. *)
Theorem help_is_shown_when_nothing_is_asked (net : Net)
  (Help : option error) (given : list FlagArg) (t : list IOEvent) :
  scaleInRunE net Help [] t = ({| helped := true; returned := Help |}, t)
  /\ (forall e, targetTag net = inl e ->
        scaleOutRunE net Help given t
        = ({| helped := false; returned := Some (AddStack e) |}, t))
  /\ (forall port, targetTag net = inr port ->
        (helped (fst (scaleOutRunE net Help given t)) = true
         <-> buildCommands ScaleOutCommandType (parseFlags given) = []))
  /\ (helped (fst (scaleOutRunE net Help given t)) = true ->
      scaleOutRunE net Help given t
      = ({| helped := true; returned := Help |}, t)).
Proof.
  assert (L : forall cmds : list Command,
            (Z.of_nat (List.length cmds) =? 0) = true <-> cmds = []).
  { intros cmds. rewrite Z.eqb_eq. destruct cmds; simpl; split;
      intros H; try reflexivity; try discriminate; lia. }
  split; [reflexivity|]. split; [|split].
  - intros e HT. unfold scaleOutRunE, scaleOut. rewrite HT. reflexivity.
  - intros port HT. unfold scaleOutRunE, scaleOut. rewrite HT.
    destruct (Z.of_nat (List.length
                (buildCommands ScaleOutCommandType (parseFlags given)))
              =? 0) eqn:E.
    + simpl. split; [intros _; now apply L|reflexivity].
    + destruct (sendCommandsAndPrintResult net
                  (buildCommands ScaleOutCommandType (parseFlags given))
                  ("127.0.0.1:" ++ Itoa port)%string t) as [[err|] t'];
        cbn [helped fst]; [split; [discriminate|]|rewrite E; split;
                                                   [discriminate|]];
        intros H; apply L in H; congruence.
  - unfold scaleOutRunE, scaleOut.
    destruct (targetTag net) as [e|port]; [discriminate|].
    destruct (Z.of_nat (List.length
                (buildCommands ScaleOutCommandType (parseFlags given)))
              =? 0) eqn:E; [reflexivity|].
    destruct (sendCommandsAndPrintResult net
                (buildCommands ScaleOutCommandType (parseFlags given))
                ("127.0.0.1:" ++ Itoa port)%string t) as [[err|] t'];
      cbn [helped fst]; [discriminate|]. rewrite E. discriminate.
Qed.

End playground_coverage.
